(* ===== verification/_CoqProject ===== *)
-Q . S2P
Prelude.v
Row.v
Board.v
Status.v
Spawn.v
Best.v
Exit.v
Game.v
