(* ===== verification/Prelude.v ===== *)
(** * A verification development of the 2048 game of 2048-CloudPhone

    The repository is a browser game written as one JavaScript file,
    [src/script.js].  Its only logic is the class [Game2048]: a 4x4 grid
    of numbers ([this.grid], 0 for an empty cell), a score
    ([this.score]), the move/merge routine [move(direction)], the tile
    spawner [addRandomTile()], the end-of-game test [canMove()] /
    [checkGameStatus()], and the event handlers that drive them
    (keyboard, soft keys, touch, and a 150 ms [setTimeout] after every
    accepted move).  Everything else in the file is presentation
    ([createTile], [updateDisplay]'s DOM writes, [showHelp]), platform
    glue ([optimizeForCloudFone], the service-worker registration) or
    leaving the page ([exitGame]).

    ** Parts of the program and where they are modelled

    - [Prelude] (this file): the notation scope [game_scope] (the cell
      read [g.[i, j]]), the hint databases [game] and [game_rw], the
      tactics of the development and the generic lemmas on lists of [Z]
      (sums, zero filtering, in-place updates, adjacent pairs).
    - [Row] (Module [Row]): the 1-D routines of [move]:
      [row.filter(val => val !== 0)] ([compact]), the ascending merge
      loop with [splice] of the [left]/[up] branches ([merge_left_loop]),
      the descending loop with its double decrement of [right]/[down]
      ([merge_right_loop]), and the padding [while] loops ([pad_end],
      [pad_start]).  The abstract specification "merge equal neighbours
      once, toward one end" is [merge_pairs].
    - [Board] (Module [Board]): the four branches of [move] as the loops
      over rows ([rows_loop]) or columns ([cols_loop], [column_nonzero],
      [write_column]) that rewrite [newGrid], the [switch]
      ([move_grid]), the cell-by-cell change test ([grid_changed]) and
      [move] itself, which returns [moved], the grid and the score.
    - [Status] (Module [Status]): the two loops of [canMove] and the
      win-first test of [checkGameStatus].
    - [Spawn] (Module [Spawn]): [addRandomTile] and [init], with
      [Math.random()] as a type class [RandomSource] of draws [k] that
      stand for the doubles [k * 2^-53]; the index [Math.floor(r * n)]
      is computed with IEEE round-to-nearest-even ([round_to_53]).
    - [Best] (Module [Best]): the best score of [updateDisplay] and
      [loadBestScore]: the read [localStorage.getItem('best2048') || '0'],
      JavaScript's [parseInt] ([NaN] is [None]), [Number.prototype.toString]
      on integers, and the update to the maximum ([update_best]).
    - [Exit] (Module [Exit]): what [exitGame] touches, as the Record
      [exit_state]: the [confirm] dialogs opened and the user's answers
      to the next ones, whether [window.close] is undefined, closes the
      page or is ignored by the browser, the pending 2000 ms navigation
      callbacks, and whether the page is gone; [exit_dialog] is the
      branch structure of [exitGame], [exit_timer_fire] its callback.
    - [Game] (Module [Game]): the page state as the Record [game] (grid,
      score, size, the count of pending 150 ms timers, the message box
      and body classes, the touch closure variables, the exit state,
      the [localStorage] best score, the random source); every listener
      or timer callback is an [event], [dispatch] runs the listeners an
      event reaches in registration order (the CloudFone listener of
      [optimizeForCloudFone] first, as the page registers it before
      [new Game2048()]), [step] runs none on a page that is gone, and
      [reachable] is the closure of [step] from the constructor
      ([construct]), a given initial [localStorage] value, the user's
      exit answers and what [window.close] does.

    The components call each other as the code does: [Game.handle_move]
    calls [Board.move], which calls the [Row] loops; [Game.timer_fire]
    calls [Spawn.addRandomTile] and then [Status.checkGameStatus];
    [Game.run_init] and an accepted [Game.handle_move] call
    [Game.updateDisplay], which calls [Best.update_best];
    [Game.exitGame] calls [Exit.exit_dialog] and [Game.showMessage].

    ** What the theorems show

    - [Row]: both merge loops refine [merge_pairs] for every fuel at
      least the row length (C1, C2); one pass splits the row into
      blocks, greedily from the left, each a pair of equal tiles (which
      becomes their sum and scores it) or a single tile, so no tile
      merges twice (C23).
    - [Board]: [right] is [left] on mirrored rows (C3); [up] and [down]
      are [left] and [right] on the transpose (C4); [moved] is decided
      by the grid the loops built, a slide without a merge included,
      and a move that changes nothing keeps the score (C5); a move keeps
      the board invariant, conserves the tile sum and raises the score
      by at most that sum (C6-C8); an accepted move always leaves an
      empty cell (C26).
    - [Status]: when [canMove] is false every move is a no-op (C9);
      when every move is a no-op, [canMove] is false or the board is
      empty (C10); [checkGameStatus] decides win / loss as stated (C11).
    - [Spawn]: the double-rounded index never leaves the list, so
      [addRandomTile] never throws (C12); it writes one 2 or 4 into one
      empty cell (C13), does nothing on a full grid (C14), and [init]
      seeds exactly two tiles (C15); the draws that pick each empty
      cell are its [1/len] share of [[0, 2^53)] up to two draws at each
      end (C28).
    - [Game]: every reachable state keeps the invariant (C16); with no
      event in between, an accepted move and its timer are the spec's
      atomic step: one tile more, then the terminal check (C27); the
      behaviours the event and timer handling add are proved as they
      are: a spawn pending across New Game gives three initial tiles
      (C17), moves can overtake pending spawns (C18), a rejected move
      changes nothing (C19), a tap moves down (C20), a swipe starting
      at coordinate 0 is ignored (C21), on CloudFone cancelling the
      Escape dialog does not cancel the exit, because a second dialog
      follows (C22), and a stored best score that parses as [NaN] is
      never written again (C25).  Confirming Exit does nothing when the
      browser ignores [window.close()] (C29); where [window.close] is
      undefined, nothing cancels the navigation that follows (C30).
    - [Best]: [updateDisplay] stores and shows the maximum of the
      stored best and the score, the stored text read back by
      [parseInt] (C24).

    ** Not modelled

    The DOM
    output ([createTile], the tile part of [updateDisplay], [showHelp])
    is not read back by the game.  Where a confirmed exit closes or
    navigates, the model records that the page is gone and runs no
    further listener; it does not follow the browser elsewhere.  The
    rest of
    [optimizeForCloudFone] (body classes, the context-menu, double-tap
    and [beforeunload] guards) and the service-worker registration have
    no effect on the game.  [move] with a direction other than the four
    strings the handlers pass is not modelled: [direction] has the four
    constructors.

    ** Integers

    JavaScript numbers are doubles; the values the game stores are
    integers, and cells and the score are [Z], which is exact as long as
    they stay below 2^53 (4x4 play is known to stop far below: tiles are
    at most 2^17); no theorem here proves that bound.
    Only [Math.random()] and the product [Math.random() * n] are modelled
    at the bit level, because there the rounding matters.

    ** Fuel

    The [for] loops over a row whose length shrinks under [splice] are
    [Fixpoint]s with fuel; the fuel given by the code model is the row
    length, which bounds the number of iterations, and the refinement
    theorems of [Row] are stated for every fuel at least that bound
    (so they also show the loops terminate within it).  [toString]
    gives its digit loop [log2 n + 1] steps, at least the number of
    decimal digits of [n] ([Best.toString_fuel]).  [Nat.iter] over the pending timers is structural. *)

From stdpp Require Export base list sets.
From Stdlib Require Export ZArith Lia.

Declare Scope game_scope.
Delimit Scope game_scope with game.
Open Scope Z_scope.

Create HintDb game discriminated.
Create Rewrite HintDb game_rw.

(** ** Grids *)

(** [grid[i][j]] on an array of rows. *)
Definition cell (g : list (list Z)) (i j : nat) : Z := (g !!! i) !!! j.

Notation "g .[ i , j ]" := (cell g i j) (at level 1, format "g .[ i ,  j ]") : game_scope.
Open Scope game_scope.

(** ** Lists of numbers *)

(** Sum of a list of cells. *)
Definition sumZ (l : list Z) : Z := foldr Z.add 0 l.

(** The empty-cell filler: [k] zeros. *)
Definition zeros (k : nat) : list Z := replicate k 0.

(** The JavaScript predicate [val => val !== 0]. *)
Abbreviation nonzero := (λ v : Z, v ≠ 0).

(** A list in which no two neighbours are equal. *)
Fixpoint no_adj (l : list Z) : Prop :=
  match l with
  | a :: ((b :: _) as t) => a ≠ b ∧ no_adj t
  | _ => True
  end.

(** Induction that peels two elements at a time, as a scan over
    neighbouring pairs does. *)
Lemma pairs_ind (P : list Z → Prop) :
  P [] → (∀ a, P [a]) → (∀ a b t, P t → P (b :: t) → P (a :: b :: t)) →
  ∀ l, P l.
Proof.
  intros H0 H1 H2 l.
  enough (P l ∧ ∀ a, P (a :: l)) by tauto.
  induction l as [|b t [IHt IHc]]; [by split|]. split; [done|]. intros a. by apply H2.
Qed.

(** ** Tile values

    A cell holds 0 (empty) or a power of two at least 2: the values
    [addRandomTile] writes are 2 and 4 and a merge doubles a value. *)
Definition tile_ok (v : Z) : bool := (v =? 0) || ((2 <=? v) && (v =? 2 ^ Z.log2 v)).

Lemma tile_ok_spec v : tile_ok v = true ↔ v = 0 ∨ ∃ k, 1 ≤ k ∧ v = 2 ^ k.
Proof.
  unfold tile_ok. rewrite orb_true_iff, andb_true_iff, Z.eqb_eq, Z.leb_le, Z.eqb_eq.
  split.
  - intros [H|[H1 H2]]; [by left|right]. exists (Z.log2 v). split; [|done].
    rewrite <- (Z.log2_pow2 1) by lia. apply Z.log2_le_mono. simpl. lia.
  - intros [H|[k [Hk ->]]]; [by left|right]. rewrite Z.log2_pow2 by lia. split; [|done].
    rewrite <- (Z.pow_1_r 2) at 1. apply Z.pow_le_mono_r; lia.
Qed.

Lemma tile_ok_double v : tile_ok v = true → v ≠ 0 → tile_ok (v * 2) = true.
Proof.
  rewrite !tile_ok_spec. intros [->|[k [Hk ->]]] Hnz; [done|]. right.
  exists (k + 1). split; [lia|]. rewrite Z.pow_add_r by lia. lia.
Qed.

Lemma tile_ok_pos v : tile_ok v = true → v ≠ 0 → 0 < v.
Proof.
  rewrite tile_ok_spec. intros [->|[k [Hk ->]]] Hnz; [done|]. apply Z.pow_pos_nonneg; lia.
Qed.

Lemma sumZ_cons a l : sumZ (a :: l) = a + sumZ l.
Proof. done. Qed.

Lemma sumZ_app l1 l2 : sumZ (l1 ++ l2) = sumZ l1 + sumZ l2.
Proof. induction l1; simpl; lia. Qed.

Lemma sumZ_reverse l : sumZ (reverse l) = sumZ l.
Proof.
  induction l as [|a l IH]; [done|].
  rewrite reverse_cons, sumZ_app, IH. simpl. lia.
Qed.

Lemma sumZ_zeros k : sumZ (zeros k) = 0.
Proof. induction k; simpl; [done|]. unfold zeros in IHk. lia. Qed.

Lemma fmap_ext_all {A B} (f g : A → B) (l : list A) :
  (∀ x, f x = g x) → f <$> l = g <$> l.
Proof. intros H. apply Forall_fmap_ext_1, Forall_forall. auto. Qed.

Lemma sumZ_fmap_add {A} (f g : A → Z) (l : list A) :
  sumZ ((λ x, f x + g x) <$> l) = sumZ (f <$> l) + sumZ (g <$> l).
Proof. induction l as [|a l IH]; [done|]. rewrite !fmap_cons, !sumZ_cons, IH. lia. Qed.

Lemma sumZ_fmap_zero {A} (l : list A) : sumZ ((λ _, 0) <$> l) = 0.
Proof. induction l as [|a l IH]; [done|]. rewrite !fmap_cons, !sumZ_cons, IH. lia. Qed.

(** Exchange of a finite double sum (rows first or columns first). *)
Lemma sumZ_swap (f : nat → nat → Z) n m :
  sumZ ((λ i, sumZ ((λ j, f i j) <$> seq 0 m)) <$> seq 0 n) =
  sumZ ((λ j, sumZ ((λ i, f i j) <$> seq 0 n)) <$> seq 0 m).
Proof.
  induction n as [|n IH].
  { symmetry. apply sumZ_fmap_zero. }
  rewrite seq_S, fmap_app, sumZ_app, IH, fmap_cons, fmap_nil, sumZ_cons.
  rewrite (fmap_ext_all (λ j, sumZ ((λ i, f i j) <$> seq 0 n ++ [(0 + n)%nat]))
             (λ j, sumZ ((λ i, f i j) <$> seq 0 n) + f n j)).
  - rewrite sumZ_fmap_add. cbn [Nat.add sumZ foldr]. rewrite Z.add_0_r. reflexivity.
  - intros j. rewrite fmap_app, sumZ_app, fmap_cons, fmap_nil, sumZ_cons. simpl. lia.
Qed.

Lemma fmap_seq_lookup {A} `{Inhabited A} (f : nat → A) n i :
  (i < n)%nat → (f <$> seq 0 n) !!! i = f i.
Proof.
  intros Hi. rewrite (list_lookup_total_fmap f (seq 0 n) i) by (rewrite length_seq; lia).
  rewrite (list_lookup_total_correct _ _ i) by (apply lookup_seq_lt; lia). done.
Qed.

Lemma existsb_false_Forall {A} (f : A → bool) (l : list A) :
  existsb f l = false ↔ Forall (λ x, f x = false) l.
Proof.
  induction l as [|a l IH]; simpl; [split; auto|].
  rewrite orb_false_iff, Forall_cons, IH. done.
Qed.

Lemma sumZ_insert (l : list Z) i v :
  (i < length l)%nat → sumZ (<[i := v]> l) = sumZ l - l !!! i + v.
Proof.
  revert i. induction l as [|a l IH]; intros [|i] Hi; [simpl in Hi; lia|simpl in Hi; lia| |].
  - change (<[0%nat := v]> (a :: l)) with (v :: l). change ((a :: l) !!! 0%nat) with a.
    rewrite !sumZ_cons. lia.
  - change (<[S i := v]> (a :: l)) with (a :: <[i := v]> l).
    change ((a :: l) !!! S i) with (l !!! i).
    rewrite !sumZ_cons, IH by (simpl in Hi; lia). lia.
Qed.

Lemma filter_ext_in {A} (P Q : A → Prop) `{∀ x, Decision (P x)} `{∀ x, Decision (Q x)}
    (l : list A) :
  (∀ y, y ∈ l → P y ↔ Q y) → filter P l = filter Q l.
Proof.
  induction l as [|a l IH]; intros Hs; [done|]. rewrite !filter_cons.
  assert (P a ↔ Q a) by (apply Hs; set_solver).
  rewrite IH by (intros; apply Hs; set_solver).
  destruct (decide (P a)), (decide (Q a)); naive_solver.
Qed.

(** Changing a filter's test at one element of a duplicate-free list
    from true to false removes exactly that element. *)
Lemma filter_length_flip {A} `{EqDecision A} (P Q : A → Prop) `{∀ x, Decision (P x)} `{∀ x, Decision (Q x)}
    (l : list A) x :
  NoDup l → x ∈ l → P x → ¬ Q x → (∀ y, y ∈ l → y ≠ x → P y ↔ Q y) →
  (length (filter Q l) + 1 = length (filter P l))%nat.
Proof.
  induction l as [|a l IH]; intros Hnd Hx HP HQ Hsame; [by apply elem_of_nil in Hx|].
  apply NoDup_cons in Hnd as [Ha Hnd]. rewrite !filter_cons.
  destruct (decide (a = x)) as [->|Hne].
  - destruct (decide (Q x)); [done|]. destruct (decide (P x)); [|done]. simpl.
    rewrite (filter_ext_in Q P); [lia|]. intros y Hy. symmetry. apply Hsame; [set_solver|].
    intros ->. done.
  - apply elem_of_cons in Hx as [->|Hx]; [done|].
    assert (HPQ : P a ↔ Q a) by (apply Hsame; [set_solver|done]).
    specialize (IH Hnd Hx HP HQ (λ y Hy Hyx, Hsame y ltac:(set_solver) Hyx)).
    destruct (decide (P a)), (decide (Q a)); simpl; naive_solver lia.
Qed.

Lemma filter_id_Forall {A} (P : A → Prop) `{∀ x, Decision (P x)} (l : list A) :
  Forall P l → filter P l = l.
Proof. induction 1; [done|]. rewrite filter_cons_True; [congruence|done]. Qed.

Lemma filter_length_same {A} (P : A → Prop) `{∀ x, Decision (P x)} (l : list A) :
  length (filter P l) = length l → filter P l = l.
Proof.
  induction l as [|a l IH]; [done|]. rewrite filter_cons. case_decide; simpl; intros Hl.
  - f_equal. apply IH. lia.
  - pose proof (length_filter P l). lia.
Qed.

Lemma filter_nonzero_zeros k : filter nonzero (zeros k) = [].
Proof.
  induction k as [|k IH]; [done|]. unfold zeros in *. cbn [replicate].
  rewrite filter_cons_False; auto.
Qed.

Lemma sumZ_filter_nonzero l : sumZ (filter nonzero l) = sumZ l.
Proof.
  induction l as [|a l IH]; [done|].
  rewrite filter_cons. case_decide; simpl; lia.
Qed.

Lemma filter_nonzero_id l : Forall nonzero l → filter nonzero l = l.
Proof.
  induction 1; [done|]. rewrite filter_cons_True; [congruence|done].
Qed.

Lemma Forall_filter_nonzero l : Forall nonzero (filter nonzero l).
Proof.
  induction l as [|a l IH]; [constructor|].
  rewrite filter_cons. case_decide; [constructor|]; done.
Qed.

Lemma Forall_filter_nonzero_sub (P : Z → Prop) l :
  Forall P l → Forall P (filter nonzero l).
Proof.
  rewrite !Forall_forall. intros H x Hx. apply list_elem_of_filter in Hx as [_ Hx]. by apply H.
Qed.

(** ** In-place updates of a JavaScript array *)

Lemma lookup_total_middle {A} `{Inhabited A} (pre t : list A) a :
  (pre ++ a :: t) !!! length pre = a.
Proof. rewrite lookup_total_app_r, Nat.sub_diag by lia. done. Qed.

Lemma insert_middle {A} (pre t : list A) a x :
  <[length pre := x]> (pre ++ a :: t) = pre ++ x :: t.
Proof. rewrite <- (Nat.add_0_r (length pre)), insert_app_r. done. Qed.

Lemma delete_middle_snoc (pre t : list Z) a x :
  delete (length pre + 1)%nat ((pre ++ [x]) ++ a :: t) = (pre ++ [x]) ++ t.
Proof.
  replace (length pre + 1)%nat with (length (pre ++ [x])) by (rewrite length_app; simpl; lia).
  apply delete_middle.
Qed.

Lemma no_adj_tail x t : no_adj (x :: t) → no_adj t.
Proof. destruct t; simpl; tauto. Qed.

Lemma no_adj_split l :
  no_adj l ↔ ∀ l1 a b l2, l = l1 ++ a :: b :: l2 → a ≠ b.
Proof.
  induction l as [|x t IH]; [split; [|done]; intros _ [|??] ???; done|].
  split.
  - intros H [|y l1] a b l2 Heq; simpl in Heq; simplify_eq.
    + simpl in H. tauto.
    + apply IH with l1 l2; [|done]. by eapply no_adj_tail.
  - intros H. destruct t as [|y t]; [done|]. split.
    + by apply (H [] x y t).
    + apply IH. intros l1 a b l2 Heq. apply (H (x :: l1) a b l2). by rewrite Heq.
Qed.

Lemma no_adj_index l :
  no_adj l ↔ ∀ k, (k + 1 < length l)%nat → l !!! k ≠ l !!! S k.
Proof.
  induction l as [|a [|b t] IH]; [simpl; split; [intros; lia|done]|simpl; split; [intros; lia|done]|].
  change (no_adj (a :: b :: t)) with (a ≠ b ∧ no_adj (b :: t)). rewrite IH. split.
  - intros [Hab H] [|k] Hk; [done|]. apply H. simpl in *. lia.
  - intros H. split; [apply (H 0%nat); simpl; lia|]. intros k Hk. apply (H (S k)). simpl in *. lia.
Qed.

Lemma Forall_lookup_total_iff {A} `{Inhabited A} (P : A → Prop) (l : list A) :
  Forall P l ↔ ∀ k, (k < length l)%nat → P (l !!! k).
Proof.
  rewrite Forall_lookup. split.
  - intros Hall k Hk. apply (Hall k). by apply list_lookup_lookup_total_lt.
  - intros Hall k x Hx. apply list_lookup_alt in Hx as [Hk <-]. by apply Hall.
Qed.

Lemma no_adj_reverse l : no_adj l → no_adj (reverse l).
Proof.
  rewrite !no_adj_split. intros H l1 a b l2 Heq.
  apply (f_equal reverse) in Heq. rewrite reverse_involutive in Heq.
  rewrite reverse_app, !reverse_cons in Heq.
  intros ->. apply (H (reverse l2) b b (reverse l1)); [|done].
  rewrite Heq, <- !app_assoc. done.
Qed.

(** Break every [Forall _ (_ :: _)] hypothesis into its elements. *)
Ltac Forall_cons_inv :=
  repeat match goal with H : Forall _ (_ :: _) |- _ => inv H end.

(** Close a decidable proposition on concrete data by evaluation. *)
Ltac decide_by_eval :=
  match goal with |- ?P => apply (bool_decide_eq_true_1 P); vm_compute; reflexivity end.

#[export] Hint Constructors Forall : game.
#[export] Hint Resolve tile_ok_double tile_ok_pos : game.
#[export] Hint Resolve Forall_filter_nonzero filter_nonzero_id no_adj_reverse : game.
#[export] Hint Rewrite sumZ_cons sumZ_app sumZ_reverse sumZ_zeros filter_nonzero_zeros
  sumZ_filter_nonzero : game_rw.
