(* ===== verification/Row.v ===== *)
(** * Row: the one-dimensional routines of [Game2048.move]

    Each branch of [move] in [src/script.js] filters the zeros out of a
    row (or column), merges equal neighbours in place with
    [Array.prototype.splice], and pads the result back to [this.size].
    The [left] and [up] branches run the ascending loop
    [for (j = 0; j < row.length - 1; j++)] (lines 198-204, 238-244); the
    [right] and [down] branches run the descending loop with the extra
    [j--] after a merge (lines 215-222, 262-269).  Both loops add every
    merged value to [this.score] as they go, so the models thread the
    score through the loop.

    [merge_pairs] is the abstract specification: scan toward one end and
    merge each pair of equal neighbours once.  The loops are proved to
    compute it (the right-ward loop on the mirrored row). *)

From S2P Require Import Prelude.

Module Row.

(** ** Definitions *)

(** [row.filter(val => val !== 0)] (lines 197, 214). *)
Definition compact (row : list Z) : list Z := filter nonzero row.

(** Abstract specification: merge equal neighbours from the front, a
    merged cell taking no part in a further merge; returns the merged
    list and the sum of the merged values. *)
Fixpoint merge_pairs (l : list Z) : list Z * Z :=
  match l with
  | a :: t =>
      match t with
      | b :: t' =>
          if decide (a = b) then
            let '(r, s) := merge_pairs t' in (a * 2 :: r, a * 2 + s)
          else
            let '(r, s) := merge_pairs t in (a :: r, s)
      | [] => ([a], 0)
      end
  | [] => ([], 0)
  end.

(** Lines 198-204:
    [for (let j = 0; j < row.length - 1; j++) {
       if (row[j] === row[j + 1]) {
         row[j] *= 2; this.score += row[j]; row.splice(j + 1, 1); } }]
    [row.length] is read again at every test, after the [splice]. *)
Fixpoint merge_left_loop (fuel j : nat) (row : list Z) (score : Z) : list Z * Z :=
  match fuel with
  | O => (row, score)
  | S fuel' =>
      if decide (j + 1 < length row)%nat then
        if decide (row !!! j = row !!! (j + 1)%nat) then
          let v := row !!! j * 2 in
          merge_left_loop fuel' (S j) (delete (j + 1)%nat (<[j := v]> row)) (score + v)
        else merge_left_loop fuel' (S j) row score
      else (row, score)
  end.

(** The loop as the code runs it: from [j = 0], with the row length as
    fuel (each iteration increases [j], which stays below the length). *)
Definition merge_left (row : list Z) (score : Z) : list Z * Z :=
  merge_left_loop (length row) 0 row score.

(** Lines 215-222:
    [for (let j = row.length - 1; j > 0; j--) {
       if (row[j] === row[j - 1]) {
         row[j] *= 2; this.score += row[j]; row.splice(j - 1, 1); j--; } }]
    The index is a JavaScript integer: it starts at [-1] on an empty row
    and can reach [-1] after the double decrement, so it is a [Z]. *)
Fixpoint merge_right_loop (fuel : nat) (j : Z) (row : list Z) (score : Z) : list Z * Z :=
  match fuel with
  | O => (row, score)
  | S fuel' =>
      if decide (0 < j) then
        if decide (row !!! Z.to_nat j = row !!! Z.to_nat (j - 1)) then
          let v := row !!! Z.to_nat j * 2 in
          merge_right_loop fuel' (j - 1 - 1)
            (delete (Z.to_nat (j - 1)) (<[Z.to_nat j := v]> row)) (score + v)
        else merge_right_loop fuel' (j - 1) row score
      else (row, score)
  end.

Definition merge_right (row : list Z) (score : Z) : list Z * Z :=
  merge_right_loop (length row) (Z.of_nat (length row) - 1) row score.

(** [while (row.length < this.size) row.push(0);] (lines 205-207). *)
Definition pad_end (size : nat) (row : list Z) : list Z :=
  row ++ zeros (size - length row).

(** [while (row.length < this.size) row.unshift(0);] (lines 223-225). *)
Definition pad_start (size : nat) (row : list Z) : list Z :=
  zeros (size - length row) ++ row.

(** One row of the [left] branch (lines 197-207). *)
Definition slide_left (size : nat) (row : list Z) (score : Z) : list Z * Z :=
  let '(r, s) := merge_left (compact row) score in (pad_end size r, s).

(** One row of the [right] branch (lines 214-225). *)
Definition slide_right (size : nat) (row : list Z) (score : Z) : list Z * Z :=
  let '(r, s) := merge_right (compact row) score in (pad_start size r, s).

(** ** Reading of one pass as a grouping of the row *)

(** A block of the row: one tile, or two equal tiles that merge. *)
Definition block_ok (b : list Z) : Prop :=
  match b with [_] => True | [x; y] => x = y | _ => False end.

(** The score a block adds: the merged value of a pair, 0 for one tile. *)
Definition block_gain (b : list Z) : Z := match b with [x; _] => x * 2 | _ => 0 end.

(** Blocks formed greedily from the left: a single tile is never
    followed by a block that starts with an equal tile. *)
Fixpoint greedy_blocks (bs : list (list Z)) : Prop :=
  match bs with
  | [] => True
  | b :: rest =>
      block_ok b ∧
      match b, rest with [x], (y :: _) :: _ => x ≠ y | _, _ => True end ∧
      greedy_blocks rest
  end.

(** ** The loops refine [merge_pairs] *)

Lemma merge_pairs_cons2 a b t :
  merge_pairs (a :: b :: t) =
    if decide (a = b) then let '(r, s) := merge_pairs t in (a * 2 :: r, a * 2 + s)
    else let '(r, s) := merge_pairs (b :: t) in (a :: r, s).
Proof. done. Qed.

Lemma merge_left_loop_split fuel (pre rest : list Z) s :
  (length rest <= fuel)%nat →
  merge_left_loop fuel (length pre) (pre ++ rest) s =
    (pre ++ (merge_pairs rest).1, s + (merge_pairs rest).2).
Proof.
  revert pre rest s. induction fuel as [|fuel IH]; intros pre rest s Hf.
  { destruct rest; simpl in *; [rewrite app_nil_r; f_equal; lia|lia]. }
  destruct rest as [|a [|b t]]; cbn [merge_left_loop].
  - rewrite app_nil_r, decide_False by (rewrite ?length_app; simpl; lia).
    simpl. by rewrite app_nil_r, Z.add_0_r.
  - rewrite decide_False by (rewrite ?length_app; simpl; lia). simpl. by rewrite Z.add_0_r.
  - simpl in Hf. rewrite merge_pairs_cons2.
    rewrite decide_True by (rewrite ?length_app; simpl; lia).
    rewrite lookup_total_middle.
    replace ((pre ++ a :: b :: t) !!! (length pre + 1)%nat) with b
      by (rewrite lookup_total_app_r by lia; by replace (length pre + 1 - length pre)%nat with 1%nat by lia).
    case_decide as Hab.
    + subst b. destruct (merge_pairs t) as [r s'] eqn:Ht.
      rewrite insert_middle.
      replace (pre ++ a * 2 :: a :: t) with ((pre ++ [a * 2]) ++ a :: t) by (rewrite <- app_assoc; done).
      rewrite delete_middle_snoc.
      replace (S (length pre)) with (length (pre ++ [a * 2])) by (rewrite ?length_app; simpl; lia).
      rewrite IH by lia. rewrite Ht, <- app_assoc. simpl. f_equal. lia.
    + destruct (merge_pairs (b :: t)) as [r s'] eqn:Ht.
      replace (pre ++ a :: b :: t) with ((pre ++ [a]) ++ b :: t) by (rewrite <- app_assoc; done).
      replace (S (length pre)) with (length (pre ++ [a])) by (rewrite ?length_app; simpl; lia).
      rewrite IH by (simpl; lia). rewrite Ht, <- app_assoc. done.
Qed.

Lemma merge_right_loop_split fuel (r suf : list Z) s :
  (length r <= fuel)%nat →
  merge_right_loop fuel (Z.of_nat (length r) - 1) (reverse r ++ suf) s =
    (reverse (merge_pairs r).1 ++ suf, s + (merge_pairs r).2).
Proof.
  revert r suf s. induction fuel as [|fuel IH]; intros r suf s Hf.
  { destruct r; simpl in *; [by rewrite Z.add_0_r|lia]. }
  destruct r as [|a [|b t]]; cbn [merge_right_loop].
  - rewrite decide_False by (simpl; lia). simpl. by rewrite Z.add_0_r.
  - rewrite decide_False by (simpl; lia). simpl. by rewrite Z.add_0_r.
  - simpl in Hf. rewrite merge_pairs_cons2.
    rewrite decide_True by (simpl; lia).
    replace (reverse (a :: b :: t) ++ suf) with (reverse t ++ b :: a :: suf)
      by (rewrite !reverse_cons, <- !app_assoc; done).
    replace (Z.to_nat (Z.of_nat (length (a :: b :: t)) - 1)) with (length (reverse t) + 1)%nat
      by (rewrite length_reverse; simpl; lia).
    replace (Z.to_nat (Z.of_nat (length (a :: b :: t)) - 1 - 1)) with (length (reverse t))
      by (rewrite length_reverse; simpl; lia).
    rewrite lookup_total_middle.
    replace ((reverse t ++ b :: a :: suf) !!! (length (reverse t) + 1)%nat) with a
      by (rewrite lookup_total_app_r by lia; by replace (length (reverse t) + 1 - length (reverse t))%nat with 1%nat by lia).
    case_decide as Hab.
    + subst b. destruct (merge_pairs t) as [r' s'] eqn:Ht.
      rewrite insert_app_r. simpl. rewrite delete_middle.
      replace (Z.of_nat (S (S (length t))) - 1 - 1 - 1) with (Z.of_nat (length t) - 1) by lia.
      rewrite IH by lia. rewrite Ht. simpl. rewrite reverse_cons, <- app_assoc. simpl. f_equal. lia.
    + destruct (merge_pairs (b :: t)) as [r' s'] eqn:Ht.
      replace (reverse t ++ b :: a :: suf) with (reverse (b :: t) ++ a :: suf)
        by (rewrite reverse_cons, <- app_assoc; done).
      replace (Z.of_nat (length (a :: b :: t)) - 1 - 1) with (Z.of_nat (length (b :: t)) - 1) by (simpl; lia).
      rewrite IH by (simpl; lia). rewrite Ht. simpl. rewrite reverse_cons, <- app_assoc. done.
Qed.

Lemma merge_pairs_proj a b t :
  merge_pairs (a :: b :: t) =
    if decide (a = b) then (a * 2 :: (merge_pairs t).1, a * 2 + (merge_pairs t).2)
    else (a :: (merge_pairs (b :: t)).1, (merge_pairs (b :: t)).2).
Proof.
  rewrite merge_pairs_cons2. destruct (merge_pairs t), (merge_pairs (b :: t)). done.
Qed.

Ltac pairs_step :=
  rewrite merge_pairs_proj; case_decide; simplify_eq/=.

(** The loops as the code calls them. *)
Lemma merge_left_eq row s :
  merge_left row s = ((merge_pairs row).1, s + (merge_pairs row).2).
Proof. apply (merge_left_loop_split _ []). lia. Qed.

Lemma merge_right_eq row s :
  merge_right row s =
    (reverse (merge_pairs (reverse row)).1, s + (merge_pairs (reverse row)).2).
Proof.
  unfold merge_right.
  pose proof (merge_right_loop_split (length row) (reverse row) [] s) as H.
  rewrite length_reverse, reverse_involutive, !app_nil_r in H. apply H. lia.
Qed.

(** ** Properties of [merge_pairs] *)

Lemma merge_pairs_sum l : sumZ (merge_pairs l).1 = sumZ l.
Proof. induction l using pairs_ind; [done|done|]. pairs_step; lia. Qed.

Lemma merge_pairs_length_le l : (length (merge_pairs l).1 <= length l)%nat.
Proof. induction l using pairs_ind; [done|done|]. pairs_step; lia. Qed.

Lemma merge_pairs_length_half l : (length l <= 2 * length (merge_pairs l).1)%nat.
Proof. induction l using pairs_ind; [done|simpl; lia|]. pairs_step; lia. Qed.

Lemma merge_pairs_nonzero l : Forall nonzero l → Forall nonzero (merge_pairs l).1.
Proof.
  induction l using pairs_ind; [done|done|]. intros Hl. Forall_cons_inv.
  pairs_step; constructor; auto with game lia.
Qed.

Lemma merge_pairs_tile l :
  Forall (λ v, tile_ok v = true) l → Forall nonzero l →
  Forall (λ v, tile_ok v = true) (merge_pairs l).1.
Proof.
  induction l using pairs_ind; [done|done|]. intros Hl Hz. Forall_cons_inv.
  pairs_step; constructor; auto with game.
Qed.

Lemma merge_pairs_gain l :
  Forall (λ v, 0 < v) l → 0 <= (merge_pairs l).2 <= sumZ l.
Proof.
  induction l using pairs_ind; [simpl; lia|intros; Forall_cons_inv; simpl; lia|].
  intros Hl. Forall_cons_inv.
  pairs_step; simpl; [destruct IHl|destruct IHl0]; auto with game; lia.
Qed.

Lemma merge_pairs_no_adj l : no_adj l → merge_pairs l = (l, 0).
Proof.
  induction l using pairs_ind; [done|done|]. intros [Hab Ht].
  rewrite merge_pairs_proj, decide_False by done. by rewrite IHl0.
Qed.

Lemma merge_pairs_fixed l :
  Forall nonzero l → (merge_pairs l).1 = l → no_adj l.
Proof.
  induction l using pairs_ind; [done|done|]. intros Hl. Forall_cons_inv.
  pairs_step; intros Heq; injection Heq; intros; [lia|].
  split; [done|]. apply IHl0; auto with game.
Qed.

Lemma merge_pairs_length_eq l : length (merge_pairs l).1 = length l → (merge_pairs l).1 = l.
Proof.
  induction l as [|a|a b t IHt IHbt] using pairs_ind; [done|done|].
  rewrite merge_pairs_proj. case_decide; cbn [fst length]; intros Hl.
  - pose proof (merge_pairs_length_le t). lia.
  - f_equal. apply IHbt. cbn [length] in *. lia.
Qed.

(** [merge_pairs] groups the row into greedy blocks of one tile or a
    pair and sums each block. *)
Lemma merge_pairs_blocks l :
  ∃ bs, concat bs = l ∧ greedy_blocks bs ∧ (merge_pairs l).1 = sumZ <$> bs ∧
    (merge_pairs l).2 = sumZ (block_gain <$> bs).
Proof.
  induction l as [|a|a b t [bt (Ht1 & Ht2 & Ht3 & Ht4)] [bbt (Hb1 & Hb2 & Hb3 & Hb4)]]
    using pairs_ind.
  - by exists [].
  - exists [[a]]. cbn. split_and!; try done; unfold sumZ; simpl; try f_equal; lia.
  - rewrite merge_pairs_proj. case_decide as Hab.
    + subst b. exists ([a; a] :: bt). cbn [concat greedy_blocks fmap list_fmap fst snd].
      rewrite Ht3, Ht4, Ht1, !sumZ_cons. cbn [block_gain].
      split_and!; try done; try lia. f_equal. unfold sumZ. simpl. lia.
    + exists ([a] :: bbt). cbn [concat fst snd]. rewrite Hb1, Hb3, Hb4, !fmap_cons, !sumZ_cons.
      split_and!; [done| | |done].
      * cbn [greedy_blocks]. split_and!; [done| |done].
        destruct bbt as [|[|y c] rest]; [done|by destruct Hb2|].
        cbn in Hb1. by injection Hb1 as -> _.
      * f_equal. unfold sumZ. simpl. lia.
Qed.

(** ** One row of a move *)

Lemma slide_right_as_left n row s :
  slide_right n row s =
    (reverse (slide_left n (reverse row) s).1, (slide_left n (reverse row) s).2).
Proof.
  unfold slide_right, slide_left. rewrite merge_right_eq, merge_left_eq.
  unfold compact. rewrite filter_reverse. simpl. f_equal.
  unfold pad_start, pad_end, zeros. by rewrite reverse_app, reverse_replicate, length_reverse.
Qed.

Lemma compact_app_zeros l k : compact (l ++ zeros k) = compact l.
Proof. unfold compact. by rewrite filter_app, filter_nonzero_zeros, app_nil_r. Qed.

Lemma compact_reverse l : compact (reverse l) = reverse (compact l).
Proof. apply filter_reverse. Qed.

Lemma compact_length l : (length (compact l) <= length l)%nat.
Proof. apply length_filter. Qed.

Lemma pad_start_reverse n l : pad_start n (reverse l) = reverse (pad_end n l).
Proof.
  unfold pad_start, pad_end, zeros.
  by rewrite reverse_app, reverse_replicate, length_reverse.
Qed.

Lemma slide_left_eq n row s :
  slide_left n row s =
    (pad_end n (merge_pairs (compact row)).1, s + (merge_pairs (compact row)).2).
Proof. unfold slide_left. by rewrite merge_left_eq. Qed.

Lemma slide_right_eq n row s :
  slide_right n row s =
    (reverse (pad_end n (merge_pairs (compact (reverse row))).1),
     s + (merge_pairs (compact (reverse row))).2).
Proof.
  unfold slide_right. rewrite merge_right_eq, compact_reverse, pad_start_reverse. done.
Qed.

Lemma slide_left_length n row s :
  (length row <= n)%nat → length (slide_left n row s).1 = n.
Proof.
  intros Hn. rewrite slide_left_eq. unfold pad_end, zeros. simpl.
  rewrite length_app, length_replicate.
  pose proof (merge_pairs_length_le (compact row)). pose proof (compact_length row). lia.
Qed.

Lemma slide_left_sum n row s : sumZ (slide_left n row s).1 = sumZ row.
Proof.
  rewrite slide_left_eq. unfold pad_end. simpl.
  rewrite sumZ_app, sumZ_zeros, merge_pairs_sum. unfold compact.
  rewrite sumZ_filter_nonzero. lia.
Qed.

Lemma slide_left_tiles n row s :
  Forall (λ v, tile_ok v = true) row →
  Forall (λ v, tile_ok v = true) (slide_left n row s).1.
Proof.
  intros H. rewrite slide_left_eq. unfold pad_end. simpl. apply Forall_app. split.
  - apply merge_pairs_tile; [|apply Forall_filter_nonzero].
    unfold compact. by apply Forall_filter_nonzero_sub.
  - apply Forall_replicate. done.
Qed.

Lemma slide_left_gain n row s :
  Forall (λ v, tile_ok v = true) row →
  s <= (slide_left n row s).2 <= s + sumZ row.
Proof.
  intros H. rewrite slide_left_eq. simpl.
  assert (Forall (λ v, 0 < v) (compact row)).
  { apply Forall_forall. intros v Hv. unfold compact in Hv.
    apply list_elem_of_filter in Hv as [Hnz Hin].
    apply tile_ok_pos; [|done]. rewrite Forall_forall in H. by apply H. }
  pose proof (merge_pairs_gain _ H0). unfold compact in *.
  rewrite sumZ_filter_nonzero in H1. lia.
Qed.

Lemma slide_left_fixed n row s :
  length row = n →
  (slide_left n row s).1 = row ↔
    row = compact row ++ zeros (n - length (compact row)) ∧ no_adj (compact row).
Proof.
  intros Hn. rewrite slide_left_eq. simpl. split.
  - intros Heq.
    assert (Hm : (merge_pairs (compact row)).1 = compact row).
    { rewrite <- Heq at 2. unfold pad_end. rewrite compact_app_zeros.
      symmetry. apply filter_nonzero_id, merge_pairs_nonzero, Forall_filter_nonzero. }
    split; [by rewrite <- Heq at 1; rewrite Hm|].
    apply merge_pairs_fixed; [apply Forall_filter_nonzero|done].
  - intros [Hrow Hna]. rewrite merge_pairs_no_adj by done. simpl. unfold pad_end. congruence.
Qed.

(** A slid row with no empty cell is the row itself: a move that changes
    a row leaves a zero in it. *)
Lemma slide_left_full n row s :
  length row = n → Forall nonzero (slide_left n row s).1 → (slide_left n row s).1 = row.
Proof.
  intros Hn Hz. rewrite slide_left_eq in *. simpl in *. unfold pad_end, zeros in *.
  pose proof (merge_pairs_length_le (compact row)). pose proof (compact_length row).
  destruct (n - length (merge_pairs (compact row)).1)%nat as [|k] eqn:Hk.
  - assert (Hc : length (compact row) = length row) by lia.
    assert (Hr : compact row = row) by (by apply filter_length_same).
    rewrite merge_pairs_length_eq by lia. simpl. by rewrite app_nil_r.
  - apply Forall_app in Hz as [_ Hz]. simpl in Hz. by inversion Hz.
Qed.

Lemma slide_left_fixed_score n row s :
  length row = n → (slide_left n row s).1 = row → (slide_left n row s).2 = s.
Proof.
  intros Hn Hfix. apply (slide_left_fixed n row s Hn) in Hfix as [_ Hna].
  rewrite slide_left_eq. simpl. rewrite merge_pairs_no_adj by done. simpl. lia.
Qed.

(** ** Claims about the row routines *)

(** C1: the ascending merge loop of the [left]/[up] branches (lines
    198-204), run with any fuel at least the row length, returns the
    merged row of [merge_pairs] and adds exactly the merged values to
    the score: the in-place [splice] loop refines the abstract merge,
    and terminates within [row.length] iterations. *)
Theorem merge_left_loop_refines fuel row s :
  (length row <= fuel)%nat →
  merge_left_loop fuel 0 row s = ((merge_pairs row).1, s + (merge_pairs row).2).
Proof. intros Hf. apply (merge_left_loop_split fuel [] row s Hf). Qed.

Lemma merge_left_loop_refines_witness :
  (length [2; 2; 2; 2] <= 4)%nat ∧ merge_left_loop 4 0 [2; 2; 2; 2] 0 = ([4; 4], 8).
Proof.
  split; [simpl; lia|].
  rewrite (merge_left_loop_refines 4 [2; 2; 2; 2] 0) by (simpl; lia). reflexivity.
Defined.

(** C2: the descending merge loop of the [right]/[down] branches (lines
    215-222), with its second [j--] after a merge, computes the mirror
    image of [merge_pairs] on the reversed row, for any fuel at least the
    row length. *)
Theorem merge_right_loop_refines fuel row s :
  (length row <= fuel)%nat →
  merge_right_loop fuel (Z.of_nat (length row) - 1) row s =
    (reverse (merge_pairs (reverse row)).1, s + (merge_pairs (reverse row)).2).
Proof.
  intros Hf.
  pose proof (merge_right_loop_split fuel (reverse row) [] s) as H.
  rewrite length_reverse, reverse_involutive, !app_nil_r in H. by apply H.
Qed.

Lemma merge_right_loop_refines_witness :
  (length [2; 2; 2] <= 3)%nat ∧
  merge_right_loop 3 (Z.of_nat (length [2; 2; 2]) - 1) [2; 2; 2] 0 = ([2; 4], 4).
Proof.
  split; [simpl; lia|].
  rewrite (merge_right_loop_refines 3 [2; 2; 2] 0) by (simpl; lia). reflexivity.
Defined.

(** C23: no chain merging, greedy from the left: one pass of the
    [left] loop splits the row into consecutive blocks, each one tile or
    a pair of equal tiles, where a single tile is never followed by a
    block starting with an equal tile; every output cell is the sum of
    its block (so it absorbs at most two input cells: [2,2,2,2] gives
    [4,4], never [8], and [2,2,2] gives [4,2]) and the score grows by
    the merged value of every pair. *)
Theorem merge_left_blocks row s :
  ∃ bs, concat bs = row ∧ greedy_blocks bs ∧ (merge_left row s).1 = sumZ <$> bs ∧
    (merge_left row s).2 = s + sumZ (block_gain <$> bs).
Proof.
  destruct (merge_pairs_blocks row) as (bs & H1 & H2 & H3 & H4).
  exists bs. rewrite merge_left_eq. cbn [fst snd]. by rewrite H3, H4.
Qed.

End Row.
