(* ===== verification/Board.v ===== *)
(** * Board: the four branches of [Game2048.move]

    [move(direction)] (src/script.js, lines 190-299) deep-copies the grid
    ([JSON.parse(JSON.stringify(this.grid))]), rewrites the copy row by
    row ([left], [right]: lines 195-228) or column by column ([up],
    [down]: lines 230-277), compares it cell by cell with the old grid to
    set [moved] (lines 280-288), and installs it only when it changed
    (line 291).  The score is updated inside the loops, whether or not
    the grid changes.

    The loops are modelled as written: [rows_loop] replaces [newGrid[i]]
    in place for each [i]; [cols_loop] gathers the non-zero cells of a
    column, runs the merge loop of [Row] on them, and writes the padded
    column back cell by cell ([write_column]).  The theorems show that
    each branch is a map of the row routine over the rows (or over the
    rows of the transpose), which gives the symmetry of the four
    directions, conservation of the tile sum and the behaviour of
    no-op moves. *)

From S2P Require Import Prelude Row.

Module Board.

(** ** Data *)

(** [this.grid]: an array of rows, 0 for an empty cell. *)
Abbreviation board := (list (list Z)).

(** The four strings the handlers pass to [move] (lines 46-58, 112-116). *)
Inductive direction := Up | Down | Left | Right.

#[export] Instance direction_eq_dec : EqDecision direction.
Proof. solve_decision. Defined.

(** The grid is [size] rows of [size] cells ([init], lines 21-27). *)
Definition shaped (n : nat) (g : board) : Prop :=
  length g = n ∧ Forall (λ r, length r = n) g.

#[export] Instance shaped_dec n g : Decision (shaped n g).
Proof. unfold shaped. apply _. Defined.

(** Every cell is empty or a power of two at least 2. *)
Definition tiles_ok (g : board) : Prop := Forall (Forall (λ v, tile_ok v = true)) g.

(** The board invariant of the game. *)
Definition board_ok (n : nat) (g : board) : Prop := shaped n g ∧ tiles_ok g.

#[export] Instance board_ok_dec n g : Decision (board_ok n g).
Proof. unfold board_ok, shaped, tiles_ok. apply _. Defined.

(** ** The row branches (lines 195-228) *)

(** [for (let i = 0; i < this.size; i++) { let row = ...newGrid[i]...;
      newGrid[i] = row; }] with the score threaded through. *)
Fixpoint rows_loop (line : list Z → Z → list Z * Z) (ixs : list nat)
    (g : board) (score : Z) : board * Z :=
  match ixs with
  | [] => (g, score)
  | i :: ixs' =>
      let '(r, s) := line (g !!! i) score in
      rows_loop line ixs' (<[i := r]> g) s
  end.

Definition move_left (size : nat) (g : board) (score : Z) : board * Z :=
  rows_loop (Row.slide_left size) (seq 0 size) g score.

Definition move_right (size : nat) (g : board) (score : Z) : board * Z :=
  rows_loop (Row.slide_right size) (seq 0 size) g score.

(** ** The column branches (lines 230-277) *)

(** Lines 232-237: [for (i...) if (newGrid[i][j] !== 0) column.push(newGrid[i][j])]. *)
Definition column_nonzero (size : nat) (g : board) (j : nat) : list Z :=
  filter nonzero ((λ i, g.[i, j]) <$> seq 0 size).

(** Lines 248-250 / 273-275: [for (i...) newGrid[i][j] = column[i]]. *)
Fixpoint write_column (j : nat) (col : list Z) (ixs : list nat) (g : board) : board :=
  match ixs with
  | [] => g
  | i :: ixs' => write_column j col ixs' (<[i := <[j := col !!! i]> (g !!! i)]> g)
  end.

(** Lines 238-247: the ascending merge loop, then [column.push(0)]. *)
Definition up_line (size : nat) (column : list Z) (score : Z) : list Z * Z :=
  let '(c, s) := Row.merge_left column score in (Row.pad_end size c, s).

(** Lines 262-272: the descending merge loop, then [column.unshift(0)]. *)
Definition down_line (size : nat) (column : list Z) (score : Z) : list Z * Z :=
  let '(c, s) := Row.merge_right column score in (Row.pad_start size c, s).

(** [for (let j = 0; j < this.size; j++) { ... }] over the columns. *)
Fixpoint cols_loop (size : nat) (line : list Z → Z → list Z * Z) (js : list nat)
    (g : board) (score : Z) : board * Z :=
  match js with
  | [] => (g, score)
  | j :: js' =>
      let '(c, s) := line (column_nonzero size g j) score in
      cols_loop size line js' (write_column j c (seq 0 size) g) s
  end.

Definition move_up (size : nat) (g : board) (score : Z) : board * Z :=
  cols_loop size (up_line size) (seq 0 size) g score.

Definition move_down (size : nat) (g : board) (score : Z) : board * Z :=
  cols_loop size (down_line size) (seq 0 size) g score.

(** The [switch (direction)] of lines 194-278. *)
Definition move_grid (size : nat) (d : direction) (g : board) (score : Z) : board * Z :=
  match d with
  | Left => move_left size g score
  | Right => move_right size g score
  | Up => move_up size g score
  | Down => move_down size g score
  end.

(** Lines 280-288: [moved] is set when some cell differs (the [break]
    leaves only the inner loop; the flag is the same). *)
Definition grid_changed (size : nat) (old new : board) : bool :=
  existsb (λ i, existsb (λ j, bool_decide (old.[i, j] ≠ new.[i, j]))
                        (seq 0 size)) (seq 0 size).

(** The state part of [move]: the new grid is installed only when
    [moved] (line 291); the score computed by the loops is kept in both
    cases (lines 201, 218, 241, 265 write [this.score] directly). *)
Definition move (size : nat) (d : direction) (g : board) (score : Z) : bool * board * Z :=
  let '(ng, s) := move_grid size d g score in
  let moved := grid_changed size g ng in
  (moved, if moved then ng else g, s).

(** ** Reference views used by the theorems *)

(** Column [j] of the grid, zeros included. *)
Definition col_of (size : nat) (g : board) (j : nat) : list Z :=
  (λ i, g.[i, j]) <$> seq 0 size.

Definition transpose (size : nat) (g : board) : board :=
  col_of size g <$> seq 0 size.

(** Sum of all cells. *)
Definition board_sum (g : board) : Z := sumZ (sumZ <$> g).

(** ** The row loop is a map over the rows *)

Section RowsLoop.
(** A line routine whose output line does not depend on the incoming
    score, and which adds a fixed gain to it: both [Row.slide_left]
    and [Row.slide_right] are of this kind. *)
Context (line : list Z → Z → list Z * Z) (gain : list Z → Z).
Hypothesis line_score : ∀ r s, line r s = ((line r 0).1, s + gain r).

Lemma rows_loop_split (pre rest : board) s :
  rows_loop line (seq (length pre) (length rest)) (pre ++ rest) s =
    (pre ++ ((λ r, (line r 0).1) <$> rest), s + sumZ (gain <$> rest)).
Proof.
  revert pre s. induction rest as [|r rest IH]; intros pre s.
  { simpl. rewrite app_nil_r. f_equal. lia. }
  cbn [length seq rows_loop].
  rewrite lookup_total_middle, line_score, insert_middle.
  replace (pre ++ (line r 0).1 :: rest) with ((pre ++ [(line r 0).1]) ++ rest)
    by (rewrite <- app_assoc; done).
  replace (S (length pre)) with (length (pre ++ [(line r 0).1]))
    by (rewrite length_app; simpl; lia).
  rewrite IH, <- app_assoc, !fmap_cons, sumZ_cons. f_equal. lia.
Qed.

Lemma rows_loop_map (g : board) s :
  rows_loop line (seq 0 (length g)) g s =
    ((λ r, (line r 0).1) <$> g, s + sumZ (gain <$> g)).
Proof. apply (rows_loop_split []). Qed.
End RowsLoop.

Lemma slide_left_score n r s :
  Row.slide_left n r s = ((Row.slide_left n r 0).1, s + (Row.merge_pairs (Row.compact r)).2).
Proof. by rewrite !Row.slide_left_eq. Qed.

Lemma slide_right_score n r s :
  Row.slide_right n r s =
    ((Row.slide_right n r 0).1, s + (Row.merge_pairs (Row.compact (reverse r))).2).
Proof. by rewrite !Row.slide_right_eq. Qed.

(** ** Shapes, cells and transposition *)

Lemma cell_fmap_rows (f : list Z → list Z) (g : board) i j :
  (i < length g)%nat → (f <$> g).[i, j] = f (g !!! i) !!! j.
Proof. intros Hi. unfold cell. by rewrite (list_lookup_total_fmap f g i). Qed.

Lemma shaped_fmap n (f : list Z → list Z) g :
  shaped n g → (∀ r, length r = n → length (f r) = n) → shaped n (f <$> g).
Proof.
  intros [Hl Hr] Hf. split; [by rewrite length_fmap|].
  apply Forall_fmap. eapply Forall_impl; [exact Hr|]. simpl. auto.
Qed.

Lemma row_length n g i : shaped n g → (i < n)%nat → length (g !!! i) = n.
Proof.
  intros [Hl Hr] Hi. rewrite Forall_lookup in Hr.
  apply (Hr i). apply list_lookup_lookup_total_lt. lia.
Qed.

Lemma board_eq n g1 g2 :
  shaped n g1 → shaped n g2 →
  (∀ i j, (i < n)%nat → (j < n)%nat → g1.[i, j] = g2.[i, j]) → g1 = g2.
Proof.
  intros H1 H2 Hc. apply list_eq. intros i.
  destruct (decide (i < n)%nat) as [Hi|Hi].
  - rewrite !list_lookup_lookup_total_lt by (destruct H1, H2; lia). f_equal.
    apply list_eq. intros j.
    destruct (decide (j < n)%nat) as [Hj|Hj].
    + rewrite !list_lookup_lookup_total_lt by (rewrite (row_length n); auto).
      f_equal. by apply Hc.
    + rewrite !lookup_ge_None_2 by (rewrite (row_length n); auto; lia). done.
  - rewrite !lookup_ge_None_2 by (destruct H1, H2; lia). done.
Qed.

Lemma col_of_length n g j : length (col_of n g j) = n.
Proof. unfold col_of. by rewrite length_fmap, length_seq. Qed.

Lemma col_of_lookup n g i j : (i < n)%nat → col_of n g j !!! i = g.[i, j].
Proof.
  intros Hi. unfold col_of. rewrite (list_lookup_total_fmap _ (seq 0 n) i) by (rewrite length_seq; lia).
  rewrite (list_lookup_total_correct _ _ i) by (apply lookup_seq_lt; lia). done.
Qed.

Lemma transpose_row n g j : (j < n)%nat → transpose n g !!! j = col_of n g j.
Proof.
  intros Hj. unfold transpose. rewrite (list_lookup_total_fmap _ (seq 0 n) j) by (rewrite length_seq; lia).
  rewrite (list_lookup_total_correct _ _ j) by (apply lookup_seq_lt; lia). done.
Qed.

Lemma transpose_shaped n g : shaped n (transpose n g).
Proof.
  split; [unfold transpose; by rewrite length_fmap, length_seq|].
  apply Forall_fmap, Forall_forall. intros. apply col_of_length.
Qed.

Lemma transpose_cell n g i j :
  (i < n)%nat → (j < n)%nat → (transpose n g).[i, j] = g.[j, i].
Proof. intros Hi Hj. unfold cell at 1. rewrite transpose_row by done. by apply col_of_lookup. Qed.

Lemma transpose_involutive n g : shaped n g → transpose n (transpose n g) = g.
Proof.
  intros Hg. apply (board_eq n); [apply transpose_shaped|done|].
  intros i j Hi Hj. rewrite !transpose_cell by done. done.
Qed.

Lemma shaped_insert n g j c :
  shaped n g → length c = n → shaped n (<[j := c]> g).
Proof.
  intros [Hl Hr] Hc. split; [by rewrite length_insert|]. by apply Forall_insert.
Qed.

(** ** Writing a column back *)

Lemma write_column_shaped n j c ixs g : shaped n g → shaped n (write_column j c ixs g).
Proof.
  revert g. induction ixs as [|i ixs IH]; intros g Hg; simpl; [done|].
  apply IH. destruct (decide (i < length g)%nat) as [Hi|Hi].
  - apply shaped_insert; [done|]. rewrite length_insert. apply (row_length n); [done|].
    destruct Hg; lia.
  - rewrite list_insert_ge by lia. done.
Qed.

Lemma write_column_cell n j c a m g i k :
  shaped n g → (a + m <= n)%nat → (i < n)%nat → (k < n)%nat →
  (write_column j c (seq a m) g).[i, k] =
    if decide (k = j ∧ a <= i < a + m)%nat then c !!! i else g.[i, k].
Proof.
  revert a g. induction m as [|m IH]; intros a g Hg Ham Hi Hk; simpl.
  { rewrite decide_False by lia. done. }
  assert (Hg' : shaped n (<[a := <[j := c !!! a]> (g !!! a)]> g)).
  { apply shaped_insert; [done|]. rewrite length_insert. apply (row_length n); [done|lia]. }
  rewrite IH by (done || lia).
  destruct Hg as [Hl Hr].
  unfold cell. rewrite list_lookup_total_insert.
  repeat case_decide; destruct_and?; try subst i; try subst k; try lia; try done.
  - rewrite list_lookup_total_insert_eq; [done|].
    rewrite (row_length n); [lia|split; done|lia].
  - rewrite list_lookup_total_insert_ne by lia. done.
Qed.

Lemma write_column_transpose n g j c :
  shaped n g → (j < n)%nat → length c = n →
  write_column j c (seq 0 n) g = transpose n (<[j := c]> (transpose n g)).
Proof.
  intros Hg Hj Hc. apply (board_eq n); [by apply write_column_shaped|apply transpose_shaped|].
  intros i k Hi Hk. rewrite (write_column_cell n) by (done || lia).
  rewrite transpose_cell by done. unfold cell at 2.
  rewrite list_lookup_total_insert.
  pose proof (transpose_shaped n g) as [HT _].
  repeat case_decide; destruct_and?; try subst i; try subst k; try lia; try done.
  change ((transpose n g !!! k) !!! i) with ((transpose n g).[k, i]). by rewrite transpose_cell.
Qed.

(** ** The column loop is the row loop on the transpose *)

Section ColsLoop.
(** [line] is the code's routine on a column already stripped of its
    zeros; [rline] the same routine on the full line. *)
Context (n : nat) (line rline : list Z → Z → list Z * Z).
Hypothesis line_compact : ∀ col s, line (Row.compact col) s = rline col s.
Hypothesis rline_length : ∀ col s, length col = n → length (rline col s).1 = n.

Lemma cols_loop_transpose js g s :
  Forall (λ j, j < n)%nat js → shaped n g →
  cols_loop n line js g s =
    let '(T, s') := rows_loop rline js (transpose n g) s in (transpose n T, s').
Proof.
  revert g s. induction js as [|j js IH]; intros g s Hjs Hg; simpl.
  { by rewrite transpose_involutive. }
  apply Forall_cons in Hjs as [Hj Hjs].
  change (column_nonzero n g j) with (Row.compact (col_of n g j)).
  rewrite line_compact, transpose_row by done.
  pose proof (rline_length (col_of n g j) s (col_of_length n g j)) as Hc.
  destruct (rline (col_of n g j) s) as [c s1]. simpl in Hc.
  rewrite write_column_transpose by done.
  rewrite IH by (done || apply transpose_shaped).
  rewrite transpose_involutive; [done|].
  apply shaped_insert; [apply transpose_shaped|done].
Qed.
End ColsLoop.

Lemma slide_right_length n row s :
  (length row <= n)%nat → length (Row.slide_right n row s).1 = n.
Proof.
  intros Hn. rewrite Row.slide_right_eq. simpl. rewrite length_reverse.
  pose proof (Row.slide_left_length n (reverse row) s) as H.
  rewrite Row.slide_left_eq, length_reverse in H. by apply H.
Qed.

Lemma Forall_seq_lt n : Forall (λ j, j < n)%nat (seq 0 n).
Proof. apply Forall_seq. lia. Qed.

#[export] Hint Resolve transpose_shaped col_of_length write_column_shaped
  shaped_insert Forall_seq_lt : game.

(** ** Each direction as a map over lines *)

(** The line routines with the incoming score set aside. *)
Definition line_left (n : nat) (r : list Z) : list Z := (Row.slide_left n r 0).1.
Definition gain_left (r : list Z) : Z := (Row.merge_pairs (Row.compact r)).2.
Definition line_right (n : nat) (r : list Z) : list Z := (Row.slide_right n r 0).1.
Definition gain_right (r : list Z) : Z := gain_left (reverse r).

Lemma move_left_eq n g s :
  length g = n → move_left n g s = (line_left n <$> g, s + sumZ (gain_left <$> g)).
Proof.
  intros <-. unfold move_left. apply rows_loop_map. intros. apply slide_left_score.
Qed.

Lemma move_right_eq n g s :
  length g = n → move_right n g s = (line_right n <$> g, s + sumZ (gain_right <$> g)).
Proof.
  intros <-. unfold move_right. apply rows_loop_map. intros.
  by rewrite !Row.slide_right_as_left, slide_left_score.
Qed.

Lemma move_up_eq n g s :
  shaped n g →
  move_up n g s = let '(T, s') := move_left n (transpose n g) s in (transpose n T, s').
Proof.
  intros Hg. unfold move_up, move_left.
  apply (cols_loop_transpose n); [done| |auto with game|done].
  intros. apply Row.slide_left_length. lia.
Qed.

Lemma move_down_eq n g s :
  shaped n g →
  move_down n g s = let '(T, s') := move_right n (transpose n g) s in (transpose n T, s').
Proof.
  intros Hg. unfold move_down, move_right.
  apply (cols_loop_transpose n); [done| |auto with game|done].
  intros. apply slide_right_length. lia.
Qed.

Lemma cell_Forall n (P : Z → Prop) g i j :
  shaped n g → Forall (Forall P) g → (i < n)%nat → (j < n)%nat → P g.[i, j].
Proof.
  intros Hg HP Hi Hj. rewrite Forall_lookup in HP.
  assert (Hr : Forall P (g !!! i)).
  { apply (HP i). apply list_lookup_lookup_total_lt. destruct Hg; lia. }
  rewrite Forall_lookup in Hr. apply (Hr j). apply list_lookup_lookup_total_lt.
  rewrite (row_length n); [lia|done|done].
Qed.

Lemma Forall_cells n (P : Z → Prop) g :
  shaped n g → (∀ i j, (i < n)%nat → (j < n)%nat → P g.[i, j]) → Forall (Forall P) g.
Proof.
  intros [Hl Hr] HP. apply Forall_lookup_total_iff. intros i Hi.
  apply Forall_lookup_total_iff. intros j Hj. apply HP; [lia|].
  rewrite <- (row_length n g i); [done|done|lia].
Qed.

(** A cell that fails a decidable test, from a failed [Forall]. *)
Lemma not_Forall_cell n (P : Z → Prop) `{∀ v, Decision (P v)} g :
  shaped n g → ¬ Forall (Forall P) g → ∃ i j, (i < n)%nat ∧ (j < n)%nat ∧ ¬ P g.[i, j].
Proof.
  intros [Hl Hr] Hn. apply not_Forall_Exists in Hn; [|apply _].
  apply Exists_exists in Hn as (r & Hin & Hnr). apply not_Forall_Exists in Hnr; [|apply _].
  apply Exists_exists in Hnr as (v & Hv & HPv).
  apply list_elem_of_lookup in Hin as [i Hi], Hv as [j Hj].
  pose proof (Forall_lookup_1 _ _ _ _ Hr Hi) as Hlen. cbv beta in Hlen.
  exists i, j. split_and!.
  - apply lookup_lt_Some in Hi. lia.
  - apply lookup_lt_Some in Hj. lia.
  - unfold cell. by rewrite (list_lookup_total_correct g i r Hi), (list_lookup_total_correct r j v Hj).
Qed.

Lemma transpose_Forall n (P : Z → Prop) g :
  shaped n g → Forall (Forall P) g → Forall (Forall P) (transpose n g).
Proof.
  intros Hg HP. apply Forall_fmap, Forall_seq. intros j Hj. simpl.
  apply Forall_fmap, Forall_seq. intros i Hi. simpl. apply (cell_Forall n); (done || lia).
Qed.

Lemma shaped_eta n g :
  shaped n g → g = (λ i, (λ j, g.[i, j]) <$> seq 0 n) <$> seq 0 n.
Proof.
  intros Hg. apply (board_eq n); [done| |].
  - split; [by rewrite length_fmap, length_seq|].
    apply Forall_fmap, Forall_forall. intros. simpl. by rewrite length_fmap, length_seq.
  - intros i j Hi Hj. unfold cell at 2. by rewrite !fmap_seq_lookup.
Qed.

Lemma board_sum_transpose n g : shaped n g → board_sum (transpose n g) = board_sum g.
Proof.
  intros Hg. unfold board_sum, transpose. rewrite (shaped_eta n g Hg) at 2.
  rewrite <- !list_fmap_compose. unfold compose, col_of. symmetry. apply sumZ_swap.
Qed.

(** ** Properties shared by the four directions *)

(** What the board-level proofs need of a line routine. *)
Record line_ok (n : nat) (f : list Z → list Z) (gain : list Z → Z) : Prop := {
  lo_length : ∀ r, length r = n → length (f r) = n;
  lo_sum : ∀ r, sumZ (f r) = sumZ r;
  lo_fixed : ∀ r, length r = n → f r = r → gain r = 0;
  lo_tiles : ∀ r, Forall (λ v, tile_ok v = true) r → Forall (λ v, tile_ok v = true) (f r);
  lo_gain : ∀ r, Forall (λ v, tile_ok v = true) r → 0 <= gain r <= sumZ r;
  lo_full : ∀ r, length r = n → Forall nonzero r → no_adj r → f r = r;
  lo_fill : ∀ r, length r = n → Forall nonzero (f r) → f r = r
}.

Lemma line_left_full n r :
  length r = n → Forall nonzero r → no_adj r → line_left n r = r.
Proof.
  intros Hl Hz Hna. unfold line_left. apply Row.slide_left_fixed; [done|].
  unfold Row.compact. rewrite filter_nonzero_id by done.
  rewrite Hl, Nat.sub_diag. unfold zeros. simpl. by rewrite app_nil_r.
Qed.

Lemma line_left_ok n : line_ok n (line_left n) gain_left.
Proof.
  unfold line_left, gain_left. split.
  - intros r Hr. apply Row.slide_left_length. lia.
  - intros r. apply Row.slide_left_sum.
  - intros r Hr Hfix. pose proof (Row.slide_left_fixed_score n r 0 Hr Hfix) as H.
    rewrite Row.slide_left_eq in H. simpl in H. lia.
  - intros r Hr. by apply Row.slide_left_tiles.
  - intros r Hr. pose proof (Row.slide_left_gain n r 0 Hr) as H.
    rewrite Row.slide_left_eq in H. simpl in H. lia.
  - apply line_left_full.
  - intros r Hr Hz. by apply Row.slide_left_full.
Qed.

Lemma line_right_as_left n r : line_right n r = reverse (line_left n (reverse r)).
Proof. unfold line_right, line_left. by rewrite Row.slide_right_as_left. Qed.

Lemma line_right_ok n : line_ok n (line_right n) gain_right.
Proof.
  destruct (line_left_ok n) as [Hl Hs Hfx Ht Hg Hfu Hfi]. unfold gain_right. split.
  - intros r Hr. rewrite line_right_as_left, length_reverse. apply Hl. by rewrite length_reverse.
  - intros r. by rewrite line_right_as_left, sumZ_reverse, Hs, sumZ_reverse.
  - intros r Hr Hfix. rewrite line_right_as_left in Hfix. apply Hfx; [by rewrite length_reverse|].
    rewrite <- Hfix at 2. by rewrite reverse_involutive.
  - intros r Hr. rewrite line_right_as_left. apply Forall_reverse, Ht, Forall_reverse, Hr.
  - intros r Hr. rewrite <- sumZ_reverse. apply Hg, Forall_reverse, Hr.
  - intros r Hr Hz Hna. rewrite line_right_as_left, Hfu, reverse_involutive; [done| | |].
    + by rewrite length_reverse.
    + by apply Forall_reverse.
    + by apply no_adj_reverse.
  - intros r Hr Hz. rewrite line_right_as_left, Forall_reverse in *.
    rewrite Hfi, reverse_involutive; [done|by rewrite length_reverse|done].
Qed.

Section LineMap.
Context (n : nat) (f : list Z → list Z) (gain : list Z → Z).
Hypothesis f_length : ∀ r, length r = n → length (f r) = n.
Hypothesis f_sum : ∀ r, sumZ (f r) = sumZ r.
Hypothesis f_fixed : ∀ r, length r = n → f r = r → gain r = 0.
Hypothesis f_tiles : ∀ r, Forall (λ v, tile_ok v = true) r →
  Forall (λ v, tile_ok v = true) (f r).
Hypothesis f_gain : ∀ r, Forall (λ v, tile_ok v = true) r → 0 <= gain r <= sumZ r.
Hypothesis f_fill : ∀ r, length r = n → Forall nonzero (f r) → f r = r.

Lemma map_sum g : board_sum (f <$> g) = board_sum g.
Proof.
  unfold board_sum. rewrite <- list_fmap_compose. f_equal.
  apply fmap_ext_all. intros r. apply f_sum.
Qed.

Lemma map_fixed g : shaped n g → f <$> g = g → sumZ (gain <$> g) = 0.
Proof.
  intros [_ Hr]. induction g as [|r g IH]; [done|]. intros Hfix.
  apply Forall_cons in Hr as [Hr1 Hr]. rewrite fmap_cons in Hfix. injection Hfix as Hf1 Hfix.
  rewrite fmap_cons, sumZ_cons, IH by done. rewrite f_fixed by done. done.
Qed.

Lemma map_tiles g :
  Forall (Forall (λ v, tile_ok v = true)) g → Forall (Forall (λ v, tile_ok v = true)) (f <$> g).
Proof. intros H. apply Forall_fmap. eapply Forall_impl; [exact H|]. auto. Qed.

Lemma map_gain g :
  Forall (Forall (λ v, tile_ok v = true)) g → 0 <= sumZ (gain <$> g) <= board_sum g.
Proof.
  unfold board_sum. induction g as [|r g IH]; [simpl; lia|]. intros H.
  apply Forall_cons in H as [Hr H]. specialize (f_gain r Hr). specialize (IH H).
  rewrite !fmap_cons, !sumZ_cons. lia.
Qed.

Lemma map_full g : shaped n g → Forall (Forall nonzero) (f <$> g) → f <$> g = g.
Proof.
  intros [_ Hr]. induction Hr as [|r g Hr1 Hr IH]; intros Hz; [done|].
  rewrite fmap_cons in *. apply Forall_cons in Hz as [Hz1 Hz]. by rewrite f_fill, IH.
Qed.

Lemma tmap_shaped g : shaped n (transpose n (f <$> transpose n g)).
Proof. apply transpose_shaped. Qed.

Lemma tmap_sum g : shaped n g → board_sum (transpose n (f <$> transpose n g)) = board_sum g.
Proof.
  intros Hg. rewrite board_sum_transpose, map_sum, board_sum_transpose; [done|done|].
  apply shaped_fmap; [apply transpose_shaped|done].
Qed.

Lemma tmap_fixed g :
  shaped n g → transpose n (f <$> transpose n g) = g → sumZ (gain <$> transpose n g) = 0.
Proof.
  intros Hg Hfix. apply map_fixed; [apply transpose_shaped|].
  rewrite <- Hfix at 2. rewrite transpose_involutive; [done|].
  apply shaped_fmap; [apply transpose_shaped|done].
Qed.

Lemma tmap_tiles g :
  shaped n g → Forall (Forall (λ v, tile_ok v = true)) g →
  Forall (Forall (λ v, tile_ok v = true)) (transpose n (f <$> transpose n g)).
Proof.
  intros Hg H. apply (transpose_Forall n).
  - apply shaped_fmap; [apply transpose_shaped|done].
  - apply map_tiles, (transpose_Forall n); done.
Qed.

Lemma tmap_gain g :
  shaped n g → Forall (Forall (λ v, tile_ok v = true)) g →
  0 <= sumZ (gain <$> transpose n g) <= board_sum g.
Proof.
  intros Hg H. rewrite <- (board_sum_transpose n g Hg).
  apply map_gain, (transpose_Forall n); done.
Qed.
Lemma tmap_full g :
  shaped n g → Forall (Forall nonzero) (transpose n (f <$> transpose n g)) →
  transpose n (f <$> transpose n g) = g.
Proof.
  intros Hg Hz. assert (Hs : shaped n (f <$> transpose n g))
    by (apply shaped_fmap; [apply transpose_shaped|done]).
  apply (transpose_Forall n) in Hz; [|apply transpose_shaped].
  rewrite transpose_involutive in Hz by done.
  rewrite map_full by (done || apply transpose_shaped). by apply transpose_involutive.
Qed.
End LineMap.

(** Every direction is a line map on the rows or on the transposed rows. *)
Lemma move_grid_view n d g s :
  shaped n g →
  ∃ f gain, line_ok n f gain ∧
    (move_grid n d g s = (f <$> g, s + sumZ (gain <$> g)) ∨
     move_grid n d g s = (transpose n (f <$> transpose n g), s + sumZ (gain <$> transpose n g))).
Proof.
  intros Hg. pose proof Hg as [Hl _].
  destruct d; simpl.
  - exists (line_left n), gain_left. split; [apply line_left_ok|right].
    rewrite move_up_eq, move_left_eq by (done || apply transpose_shaped). done.
  - exists (line_right n), gain_right. split; [apply line_right_ok|right].
    rewrite move_down_eq, move_right_eq by (done || apply transpose_shaped). done.
  - exists (line_left n), gain_left. split; [apply line_left_ok|left]. by apply move_left_eq.
  - exists (line_right n), gain_right. split; [apply line_right_ok|left]. by apply move_right_eq.
Qed.

Ltac destruct_view n d g s Hg :=
  let f := fresh "f" in let gain := fresh "gain" in let Hok := fresh "Hok" in
  let Hv := fresh "Hv" in
  destruct (move_grid_view n d g s Hg) as (f & gain & Hok & [Hv|Hv]); rewrite Hv;
  destruct Hok; simpl.

Lemma move_grid_shaped n d g s : shaped n g → shaped n (move_grid n d g s).1.
Proof. intros Hg. destruct_view n d g s Hg; [by apply shaped_fmap|apply transpose_shaped]. Qed.

Lemma move_grid_sum n d g s : shaped n g → board_sum (move_grid n d g s).1 = board_sum g.
Proof. intros Hg. destruct_view n d g s Hg; [by apply map_sum|by apply tmap_sum]. Qed.

Lemma move_grid_full n d g s :
  shaped n g → Forall (Forall nonzero) (move_grid n d g s).1 → (move_grid n d g s).1 = g.
Proof. intros Hg. destruct_view n d g s Hg; [by apply (map_full n)|by apply (tmap_full n)]. Qed.

Lemma move_grid_fixed n d g s :
  shaped n g → (move_grid n d g s).1 = g → (move_grid n d g s).2 = s.
Proof.
  intros Hg. destruct_view n d g s Hg; intros Hfix.
  - rewrite (map_fixed n f gain) by done. lia.
  - rewrite (tmap_fixed n f gain) by done. lia.
Qed.

Lemma move_grid_tiles n d g s :
  shaped n g → Forall (Forall (λ v, tile_ok v = true)) g →
  Forall (Forall (λ v, tile_ok v = true)) (move_grid n d g s).1.
Proof.
  intros Hg Ht. destruct_view n d g s Hg; [by apply map_tiles|by apply tmap_tiles].
Qed.

Lemma move_grid_gain n d g s :
  shaped n g → Forall (Forall (λ v, tile_ok v = true)) g →
  s <= (move_grid n d g s).2 <= s + board_sum g.
Proof.
  intros Hg Ht. destruct_view n d g s Hg.
  - pose proof (map_gain _ lo_gain0 g Ht). lia.
  - pose proof (tmap_gain n _ lo_gain0 g Hg Ht). lia.
Qed.

(** ** The change test *)

Lemma grid_changed_false n a b :
  shaped n a → shaped n b → grid_changed n a b = false ↔ a = b.
Proof.
  intros Ha Hb. unfold grid_changed. rewrite existsb_false_Forall, Forall_seq.
  split.
  - intros H. apply (board_eq n); [done|done|]. intros i j Hi Hj.
    specialize (H i ltac:(lia)). rewrite existsb_false_Forall, Forall_seq in H.
    specialize (H j ltac:(lia)). simpl in H. apply bool_decide_eq_false in H.
    destruct (decide (a.[i, j] = b.[i, j])); [done|contradiction].
  - intros -> i Hi. rewrite existsb_false_Forall, Forall_seq. intros j Hj.
    apply bool_decide_eq_false. auto.
Qed.

(** What the game loop needs of [move]. *)
Lemma move_ok n d g s :
  board_ok n g →
  board_ok n (move n d g s).1.2 ∧ s <= (move n d g s).2 <= s + board_sum g.
Proof.
  intros [Hg Ht]. unfold move.
  pose proof (move_grid_shaped n d g s Hg). pose proof (move_grid_tiles n d g s Hg Ht).
  pose proof (move_grid_gain n d g s Hg Ht).
  destruct (move_grid n d g s) as [ng s1]. simpl in *.
  unfold board_ok, tiles_ok in *. destruct (grid_changed n g ng); auto.
Qed.

Lemma move_rejected n d g s g' s' :
  shaped n g → move n d g s = (false, g', s') → g' = g ∧ s' = s.
Proof.
  intros Hg. unfold move.
  pose proof (move_grid_shaped n d g s Hg) as Hsh.
  pose proof (move_grid_fixed n d g s Hg) as Hfx.
  destruct (move_grid n d g s) as [ng s1]. simpl in *.
  destruct (grid_changed n g ng) eqn:Hc; intros [= Hg' Hs']; [].
  apply (grid_changed_false n g ng Hg Hsh) in Hc. subst ng. rewrite <- Hs'. split; [done|].
  by apply Hfx.
Qed.

(** An accepted move leaves a zero cell: a grid without one would be
    the old grid. *)
Lemma move_accepted_zero n d g s :
  shaped n g → (move n d g s).1.1 = true →
  ∃ i j, (i < n)%nat ∧ (j < n)%nat ∧ (move n d g s).1.2.[i, j] = 0.
Proof.
  intros Hg Hm. unfold move in *. pose proof (move_grid_shaped n d g s Hg) as Hsh.
  pose proof (move_grid_full n d g s Hg) as Hfull.
  destruct (move_grid n d g s) as [ng s1]. simpl in *. rewrite Hm.
  destruct (decide (Forall (Forall nonzero) ng)) as [Hz|Hz].
  - apply Hfull in Hz. subst ng.
    assert (grid_changed n g g = false) by (by apply (grid_changed_false n)). congruence.
  - destruct (not_Forall_cell n nonzero ng Hsh Hz) as (i & j & Hi & Hj & H0).
    exists i, j. split_and!; [done|done|]. lia.
Qed.

(** ** Claims about [move] *)

(** C3: the [right] branch of [move] is the [left] branch on the
    mirrored rows, mirrored back: same grid up to mirroring and same
    score, so the two hand-written branches cannot disagree on merge
    order or tie-breaking. *)
Theorem move_right_mirror n g s :
  length g = n →
  move_right n g s = let '(g', s') := move_left n (reverse <$> g) s in (reverse <$> g', s').
Proof.
  intros Hl. rewrite move_right_eq, move_left_eq by (rewrite ?length_fmap; done).
  rewrite <- !list_fmap_compose. f_equal.
  - apply fmap_ext_all. intros r. apply line_right_as_left.
Qed.

Definition sample : board := [[2; 2; 0; 4]; [0; 0; 0; 0]; [4; 0; 4; 8]; [2; 2; 2; 2]].

Lemma move_right_mirror_witness :
  length sample = 4%nat ∧
  move_right 4 sample 0 = ([[0; 0; 4; 4]; [0; 0; 0; 0]; [0; 0; 8; 8]; [0; 0; 4; 4]], 20).
Proof.
  split; [reflexivity|].
  rewrite (move_right_mirror 4 sample 0) by reflexivity. vm_compute. reflexivity.
Defined.

(** C4: the column branches are the row branches on the transposed grid:
    [up] is [left] on the columns and [down] is [right] on the columns,
    score included, although the code reads and writes the columns cell
    by cell through [newGrid[i][j]]. *)
Theorem move_vertical_transpose n g s :
  shaped n g →
  move_up n g s = (let '(T, s') := move_left n (transpose n g) s in (transpose n T, s')) ∧
  move_down n g s = (let '(T, s') := move_right n (transpose n g) s in (transpose n T, s')).
Proof. intros Hg. split; [by apply move_up_eq|by apply move_down_eq]. Qed.

Lemma move_vertical_transpose_witness :
  shaped 4 sample ∧
  move_up 4 sample 0 = ([[2; 4; 4; 4]; [4; 0; 2; 8]; [2; 0; 0; 2]; [0; 0; 0; 0]], 4).
Proof.
  split; [decide_by_eval|].
  rewrite (proj1 (move_vertical_transpose 4 sample 0 ltac:(decide_by_eval))).
  vm_compute. reflexivity.
Defined.

(** C5: [move] decides [moved] by the grid the loops built: when the
    loops of the branch turn [g] into [ng] and the score into [s1],
    [moved] is exactly [ng <> g], the grid afterwards is [ng] when moved
    and [g] otherwise, the score is always [s1] (the loops write
    [this.score] directly), and [s1 = s] when [ng = g]: a rejected move
    never changes the score. *)
Theorem move_outcome n d g s ng s1 :
  shaped n g → move_grid n d g s = (ng, s1) →
  move n d g s = (bool_decide (ng ≠ g), if bool_decide (ng ≠ g) then ng else g, s1) ∧
  (ng = g → s1 = s).
Proof.
  intros Hg E. pose proof (move_grid_shaped n d g s Hg) as Hsh.
  pose proof (move_grid_fixed n d g s Hg) as Hfx. rewrite E in Hsh, Hfx. simpl in *.
  unfold move. rewrite E. split; [|done].
  destruct (grid_changed n g ng) eqn:Hc.
  - rewrite bool_decide_true; [done|]. intros ->.
    assert (grid_changed n g g = false) by (by apply (grid_changed_false n)). congruence.
  - apply (grid_changed_false n g ng Hg Hsh) in Hc. subst ng.
    rewrite bool_decide_false; [done|tauto].
Qed.

(** A row that only slides: the score does not change, the grid does. *)
Definition slide_only : board := [[0; 2; 0; 4]; [0; 0; 0; 0]; [0; 0; 0; 0]; [0; 0; 0; 0]].

Lemma move_outcome_witness :
  shaped 4 slide_only ∧
  move_grid 4 Left slide_only 0 = ([[2; 4; 0; 0]; [0; 0; 0; 0]; [0; 0; 0; 0]; [0; 0; 0; 0]], 0) ∧
  (move 4 Left slide_only 0).1.1 = true.
Proof.
  assert (Hs : shaped 4 slide_only) by decide_by_eval.
  assert (Hm : move_grid 4 Left slide_only 0 =
    ([[2; 4; 0; 0]; [0; 0; 0; 0]; [0; 0; 0; 0]; [0; 0; 0; 0]], 0)) by (vm_compute; reflexivity).
  split_and!; [done|done|].
  rewrite (proj1 (move_outcome 4 Left slide_only 0 _ _ Hs Hm)). reflexivity.
Defined.

(** C6: a move keeps the board invariant: a [size] x [size] grid whose
    cells are 0 or powers of two at least 2. *)
Theorem move_preserves_board_ok n d g s :
  board_ok n g → board_ok n (move n d g s).1.2.
Proof.
  intros Hok. apply (move_ok n d g s Hok).
Qed.

Lemma move_preserves_board_ok_witness :
  board_ok 4 sample ∧ board_ok 4 (move 4 Down sample 0).1.2.
Proof.
  assert (H : board_ok 4 sample) by decide_by_eval.
  split; [exact H|exact (move_preserves_board_ok 4 Down sample 0 H)].
Defined.

(** C7: merging conserves the tile sum: after any move the cells add up
    to the same total as before (only spawns add value). *)
Theorem move_conserves_sum n d g s :
  shaped n g → board_sum (move n d g s).1.2 = board_sum g.
Proof.
  intros Hg. unfold move. pose proof (move_grid_sum n d g s Hg).
  destruct (move_grid n d g s) as [ng s1]. simpl in *.
  destruct (grid_changed n g ng); done.
Qed.

Lemma move_conserves_sum_witness :
  shaped 4 sample ∧ board_sum (move 4 Up sample 0).1.2 = 32.
Proof.
  assert (H : shaped 4 sample) by decide_by_eval.
  split; [exact H|]. rewrite (move_conserves_sum 4 Up sample 0 H). reflexivity.
Defined.

(** C8: the score never decreases, and one move adds at most the tile
    sum of the board (every merged value is a cell of the new board). *)
Theorem move_score_bounds n d g s :
  board_ok n g → s <= (move n d g s).2 <= s + board_sum g.
Proof.
  intros Hok. apply (move_ok n d g s Hok).
Qed.

Lemma move_score_bounds_witness :
  board_ok 4 sample ∧ 0 <= (move 4 Right sample 0).2 <= 0 + board_sum sample.
Proof.
  assert (H : board_ok 4 sample) by decide_by_eval.
  split; [exact H|exact (move_score_bounds 4 Right sample 0 H)].
Defined.

(** C26: an accepted move always leaves an empty cell, so the spawn
    that follows it always has a cell to fill. *)
Theorem accepted_move_leaves_empty n d g s :
  shaped n g → (move n d g s).1.1 = true →
  ∃ i j, (i < n)%nat ∧ (j < n)%nat ∧ (move n d g s).1.2.[i, j] = 0.
Proof. apply move_accepted_zero. Qed.

Lemma accepted_move_leaves_empty_witness :
  shaped 4 sample ∧ (move 4 Left sample 0).1.1 = true ∧
  ∃ i j, (i < 4)%nat ∧ (j < 4)%nat ∧ (move 4 Left sample 0).1.2.[i, j] = 0.
Proof.
  assert (H1 : shaped 4 sample) by decide_by_eval.
  assert (H2 : (move 4 Left sample 0).1.1 = true) by (vm_compute; reflexivity).
  split_and!; [done|done|exact (accepted_move_leaves_empty 4 Left sample 0 H1 H2)].
Defined.

End Board.
