(* ===== verification/Status.v ===== *)
(** * Status: [Game2048.canMove] and [Game2048.checkGameStatus]

    [canMove()] (src/script.js, lines 318-340) returns true as soon as it
    finds an empty cell, then as soon as it finds a cell equal to its
    lower or right neighbour.  [checkGameStatus()] (lines 301-316) shows
    "You Win!" when some cell is exactly 2048, else "Game Over!" when
    [canMove()] is false.

    The theorems show that the loss test is exact with respect to
    [move]: when [canMove] is false every direction is a rejected no-op,
    and when every direction is a no-op the board is either stuck
    ([canMove] false) or entirely empty. *)

From S2P Require Import Prelude Row Board.
Import Board.

Module Status.

(** ** Definitions *)

(** Lines 320-326: the first loop of [canMove]. *)
Definition has_empty (size : nat) (g : board) : bool :=
  existsb (λ i, existsb (λ j, bool_decide (g.[i, j] = 0)) (seq 0 size)) (seq 0 size).

(** Lines 329-337: the second loop of [canMove]; the bound checks
    [i < this.size - 1] guard the reads of [grid[i + 1]] and [grid[i][j + 1]]. *)
Definition has_merge (size : nat) (g : board) : bool :=
  existsb (λ i, existsb (λ j,
      let current := g.[i, j] in
      ((i <? size - 1)%nat && bool_decide (g.[i + 1, j] = current)) ||
      ((j <? size - 1)%nat && bool_decide (g.[i, j + 1] = current)))
    (seq 0 size)) (seq 0 size).

Definition canMove (size : nat) (g : board) : bool := has_empty size g || has_merge size g.

(** The message [checkGameStatus] shows, if any. *)
Inductive status := Won | GameOver | Playing.

#[export] Instance status_eq_dec : EqDecision status.
Proof. solve_decision. Defined.

(** Lines 303-310: [if (this.grid[i][j] === 2048)]. *)
Definition has_2048 (size : nat) (g : board) : bool :=
  existsb (λ i, existsb (λ j, bool_decide (g.[i, j] = 2048)) (seq 0 size)) (seq 0 size).

(** Lines 301-316: the win test first, with an early return. *)
Definition checkGameStatus (size : nat) (g : board) : status :=
  if has_2048 size g then Won
  else if canMove size g then Playing
  else GameOver.

(** ** Cell-level reading of the loss test *)

(** Every cell is occupied. *)
Definition full (n : nat) (g : board) : Prop :=
  ∀ i j, (i < n)%nat → (j < n)%nat → g.[i, j] ≠ 0.

(** No cell equals its lower or its right neighbour. *)
Definition no_pair (n : nat) (g : board) : Prop :=
  (∀ i j, (i + 1 < n)%nat → (j < n)%nat → g.[i + 1, j] ≠ g.[i, j]) ∧
  (∀ i j, (i < n)%nat → (j + 1 < n)%nat → g.[i, j + 1] ≠ g.[i, j]).

Lemma existsb_cells_false (n : nat) (p : nat → nat → bool) :
  existsb (λ i, existsb (λ j, p i j) (seq 0 n)) (seq 0 n) = false ↔
  ∀ i j, (i < n)%nat → (j < n)%nat → p i j = false.
Proof.
  rewrite existsb_false_Forall, Forall_seq. split.
  - intros H i j Hi Hj. specialize (H i ltac:(lia)). simpl in H.
    rewrite existsb_false_Forall, Forall_seq in H. apply H. lia.
  - intros H i Hi. simpl. rewrite existsb_false_Forall, Forall_seq. intros j Hj. apply H; lia.
Qed.

Lemma canMove_false_iff n g : canMove n g = false ↔ full n g ∧ no_pair n g.
Proof.
  unfold canMove, has_empty, has_merge, full, no_pair.
  rewrite orb_false_iff, !existsb_cells_false. split.
  - intros [He Hm]. split; [|split].
    + intros i j Hi Hj. specialize (He i j Hi Hj). by apply bool_decide_eq_false in He.
    + intros i j Hi Hj. specialize (Hm i j ltac:(lia) Hj). apply orb_false_iff in Hm as [Hm _].
      apply andb_false_iff in Hm as [Hm|Hm]; [apply Nat.ltb_ge in Hm; lia|].
      by apply bool_decide_eq_false in Hm.
    + intros i j Hi Hj. specialize (Hm i j Hi ltac:(lia)). apply orb_false_iff in Hm as [_ Hm].
      apply andb_false_iff in Hm as [Hm|Hm]; [apply Nat.ltb_ge in Hm; lia|].
      by apply bool_decide_eq_false in Hm.
  - intros [Hf [Hv Hh]]. split.
    + intros i j Hi Hj. apply bool_decide_eq_false. auto.
    + intros i j Hi Hj. apply orb_false_iff. split; apply andb_false_iff.
      * destruct (decide (i + 1 < n)%nat).
        -- right. apply bool_decide_eq_false. auto.
        -- left. apply Nat.ltb_ge. lia.
      * destruct (decide (j + 1 < n)%nat).
        -- right. apply bool_decide_eq_false. auto.
        -- left. apply Nat.ltb_ge. lia.
Qed.

(** Rows and columns of a stuck board. *)
Lemma row_facts n g i :
  shaped n g → (i < n)%nat → full n g → no_pair n g →
  Forall nonzero (g !!! i) ∧ no_adj (g !!! i).
Proof.
  intros Hg Hi Hf [_ Hh]. pose proof (row_length n g i Hg Hi) as Hl.
  rewrite Forall_lookup_total_iff, no_adj_index, Hl. split.
  - intros k Hk. by apply Hf.
  - intros k Hk. apply not_eq_sym. rewrite <- Nat.add_1_r. apply Hh; lia.
Qed.

Lemma col_facts n g j :
  (j < n)%nat → full n g → no_pair n g →
  Forall nonzero (col_of n g j) ∧ no_adj (col_of n g j).
Proof.
  intros Hj Hf [Hv _].
  rewrite Forall_lookup_total_iff, no_adj_index, col_of_length. split.
  - intros k Hk. rewrite col_of_lookup by done. by apply Hf.
  - intros k Hk. rewrite !col_of_lookup by lia. apply not_eq_sym.
    rewrite <- Nat.add_1_r. apply Hv; lia.
Qed.

Lemma fmap_rows_id n (f : list Z → list Z) g :
  shaped n g → (∀ i, (i < n)%nat → f (g !!! i) = g !!! i) → f <$> g = g.
Proof.
  intros [Hl _] H. apply list_eq. intros i. rewrite list_lookup_fmap.
  destruct (decide (i < n)%nat) as [Hi|Hi].
  - rewrite list_lookup_lookup_total_lt by lia. simpl. by rewrite H.
  - by rewrite lookup_ge_None_2 by lia.
Qed.

(** On a stuck board every direction leaves the grid as it is. *)
Lemma stuck_move_grid n d g s :
  shaped n g → full n g → no_pair n g → (move_grid n d g s).1 = g.
Proof.
  intros Hg Hf Hp.
  destruct (move_grid_view n d g s Hg) as (f & gain & Hok & [Hv|Hv]); rewrite Hv; simpl.
  - apply (fmap_rows_id n); [done|]. intros i Hi.
    destruct (row_facts n g i Hg Hi Hf Hp). apply (lo_full _ _ _ Hok); [|done|done].
    by apply (row_length n).
  - rewrite (fmap_rows_id n f (transpose n g)); [by apply transpose_involutive|apply transpose_shaped|].
    intros j Hj. rewrite transpose_row by done.
    destruct (col_facts n g j Hj Hf Hp). apply (lo_full _ _ _ Hok); [|done|done].
    apply col_of_length.
Qed.

(** ** Boards on which no direction moves *)

(** A line that both the left and the right routine leave unchanged is
    either full without equal neighbours, or empty. *)
Lemma line_left_right_fixed n r :
  length r = n → line_left n r = r → line_right n r = r →
  (Forall nonzero r ∧ no_adj r) ∨ Forall (λ v, v = 0) r.
Proof.
  intros Hl HL HR. rewrite line_right_as_left in HR.
  assert (HR' : line_left n (reverse r) = reverse r).
  { rewrite <- HR at 2. by rewrite reverse_involutive. }
  unfold line_left in HL, HR'.
  apply Row.slide_left_fixed in HL as [Hr1 Hna]; [|done].
  apply Row.slide_left_fixed in HR' as [Hr2 _]; [|by rewrite length_reverse].
  rewrite Row.compact_reverse, length_reverse in Hr2.
  apply (f_equal reverse) in Hr2.
  rewrite reverse_involutive, reverse_app, reverse_involutive in Hr2.
  unfold zeros in Hr1, Hr2. rewrite reverse_replicate in Hr2.
  pose proof (Forall_filter_nonzero r) as Hc. fold (Row.compact r) in Hc.
  destruct (n - length (Row.compact r))%nat as [|k].
  - left. rewrite Hr1. simpl. rewrite app_nil_r. done.
  - destruct (Row.compact r) as [|x c] eqn:Ec.
    + right. rewrite Hr1, app_nil_l. apply Forall_replicate. done.
    + exfalso. rewrite Hr1 in Hr2. simpl in Hr2. injection Hr2 as Hx _.
      apply Forall_cons in Hc as [Hx' _]. done.
Qed.

Lemma fmap_fixed_row (f : list Z → list Z) (g : board) i :
  f <$> g = g → (i < length g)%nat → f (g !!! i) = g !!! i.
Proof.
  intros H Hi. rewrite <- (list_lookup_total_fmap f g i Hi). by rewrite H.
Qed.

(** A rejected move leaves the grid of [move_grid] equal to the old one. *)
Lemma not_moved_fixed n d g s :
  shaped n g → (move n d g s).1.1 = false → (move_grid n d g s).1 = g.
Proof.
  intros Hg. unfold move. pose proof (move_grid_shaped n d g s Hg) as Hsh.
  destruct (move_grid n d g s) as [ng s1]. simpl in *. intros Hc.
  symmetry. by apply (grid_changed_false n g ng).
Qed.

(** A line of length [n] of one of the two kinds above that has a
    non-zero entry is full and has no equal neighbours. *)
Lemma line_nonzero_facts n (l : list Z) k :
  length l = n → (Forall nonzero l ∧ no_adj l) ∨ Forall (λ v, v = 0) l →
  (k < n)%nat → l !!! k ≠ 0 →
  (∀ k', (k' < n)%nat → l !!! k' ≠ 0) ∧ (∀ k', (k' + 1 < n)%nat → l !!! k' ≠ l !!! S k').
Proof.
  intros Hl [[Hz Hna]|Hz] Hk Hnz.
  - rewrite Forall_lookup_total_iff in Hz. rewrite no_adj_index in Hna.
    split; intros k' Hk'; [apply Hz|apply Hna]; lia.
  - rewrite Forall_lookup_total_iff in Hz. exfalso. apply Hnz, Hz. lia.
Qed.

Lemma rows_fixed_left_right n g s :
  shaped n g → (move n Left g s).1.1 = false → (move n Right g s).1.1 = false →
  ∀ i, (i < n)%nat → (Forall nonzero (g !!! i) ∧ no_adj (g !!! i)) ∨ Forall (λ v, v = 0) (g !!! i).
Proof.
  intros Hg HL HR i Hi. pose proof Hg as [Hl _].
  apply (not_moved_fixed n) in HL, HR; [|done|done]. simpl in HL, HR.
  rewrite move_left_eq in HL by done. rewrite move_right_eq in HR by done. simpl in HL, HR.
  apply (line_left_right_fixed n); [by apply (row_length n)| |];
    apply fmap_fixed_row; (done || lia).
Qed.

Lemma cols_fixed_up_down n g s :
  shaped n g → (move n Up g s).1.1 = false → (move n Down g s).1.1 = false →
  ∀ j, (j < n)%nat →
    (Forall nonzero (col_of n g j) ∧ no_adj (col_of n g j)) ∨ Forall (λ v, v = 0) (col_of n g j).
Proof.
  intros Hg HU HD j Hj. pose proof (transpose_shaped n g) as [HT _].
  apply (not_moved_fixed n) in HU, HD; [|done|done]. simpl in HU, HD.
  rewrite move_up_eq, move_left_eq in HU by (done || apply transpose_shaped).
  rewrite move_down_eq, move_right_eq in HD by (done || apply transpose_shaped).
  simpl in HU, HD.
  apply (f_equal (transpose n)) in HU, HD.
  rewrite !transpose_involutive in HU, HD by (done || (apply shaped_fmap; [apply transpose_shaped|];
    intros; first [apply (lo_length _ _ _ (line_left_ok n)) | apply (lo_length _ _ _ (line_right_ok n))]; done)).
  rewrite <- (transpose_row n g j Hj).
  apply (line_left_right_fixed n); [rewrite transpose_row; [apply col_of_length|done]| |];
    apply fmap_fixed_row; (done || lia).
Qed.

Lemma existsb_cells_true (n : nat) (p : nat → nat → bool) :
  existsb (λ i, existsb (λ j, p i j) (seq 0 n)) (seq 0 n) = true ↔
  ∃ i j, (i < n)%nat ∧ (j < n)%nat ∧ p i j = true.
Proof.
  rewrite existsb_exists. split.
  - intros [i [Hi H]]. apply existsb_exists in H as [j [Hj H]].
    apply in_seq in Hi, Hj. exists i, j. split_and!; (lia || done).
  - intros (i & j & Hi & Hj & H). exists i. split; [apply in_seq; lia|].
    apply existsb_exists. exists j. split; [apply in_seq; lia|done].
Qed.

(** ** Claims about the end-of-game tests *)

(** C9: soundness of the loss test: when [canMove] is false, every
    direction is a rejected move that leaves grid and score unchanged,
    so "Game Over!" is never shown while a move is possible. *)
Theorem stuck_no_move n d g s :
  shaped n g → canMove n g = false → move n d g s = (false, g, s).
Proof.
  intros Hg Hc. apply canMove_false_iff in Hc as [Hf Hp].
  pose proof (stuck_move_grid n d g s Hg Hf Hp) as H1.
  pose proof (move_grid_fixed n d g s Hg H1) as H2.
  unfold move. destruct (move_grid n d g s) as [ng s1]. simpl in *. subst.
  assert (grid_changed n g g = false) as -> by (by apply (grid_changed_false n)). done.
Qed.

Definition checkerboard : board := [[2; 4; 2; 4]; [4; 2; 4; 2]; [2; 4; 2; 4]; [4; 2; 4; 2]].

Lemma stuck_no_move_witness :
  shaped 4 checkerboard ∧ canMove 4 checkerboard = false ∧
  move 4 Up checkerboard 12 = (false, checkerboard, 12).
Proof.
  assert (H1 : shaped 4 checkerboard) by decide_by_eval.
  assert (H2 : canMove 4 checkerboard = false) by reflexivity.
  split; [done|split; [done|exact (stuck_no_move 4 Up checkerboard 12 H1 H2)]].
Defined.

(** C10: completeness of the loss test: if no direction changes the
    board, then [canMove] is false or the board is entirely empty (the
    one board with free cells on which nothing can move). *)
Theorem no_move_stuck n g s :
  shaped n g → (∀ d, (move n d g s).1.1 = false) →
  canMove n g = false ∨ (∀ i j, (i < n)%nat → (j < n)%nat → g.[i, j] = 0).
Proof.
  intros Hg Hall.
  pose proof (rows_fixed_left_right n g s Hg (Hall Left) (Hall Right)) as Hrow.
  pose proof (cols_fixed_up_down n g s Hg (Hall Up) (Hall Down)) as Hcol.
  destruct (existsb (λ i, existsb (λ j, bool_decide (g.[i, j] ≠ 0)) (seq 0 n)) (seq 0 n)) eqn:E.
  - left. apply existsb_cells_true in E as (i0 & j0 & Hi0 & Hj0 & E).
    apply bool_decide_eq_true in E.
    destruct (line_nonzero_facts n (g !!! i0) j0) as [Hr0 _];
      [by apply (row_length n)|by apply Hrow|done|done|].
    assert (Hc : ∀ j, (j < n)%nat →
      (∀ i, (i < n)%nat → g.[i, j] ≠ 0) ∧ (∀ i, (i + 1 < n)%nat → g.[i, j] ≠ g.[S i, j])).
    { intros j Hj. destruct (line_nonzero_facts n (col_of n g j) i0) as [H1 H2];
        [apply col_of_length|by apply Hcol|done|rewrite col_of_lookup by done; by apply Hr0|].
      split; intros i Hi; [specialize (H1 i Hi)|specialize (H2 i Hi)];
        rewrite ?col_of_lookup in * by lia; done. }
    assert (Hr : ∀ i, (i < n)%nat → ∀ j, (j + 1 < n)%nat → g.[i, j] ≠ g.[i, S j]).
    { intros i Hi. apply (line_nonzero_facts n (g !!! i) j0);
        [by apply (row_length n)|by apply Hrow|done|exact (proj1 (Hc j0 Hj0) i Hi)]. }
    apply canMove_false_iff. split; [|split].
    + intros i j Hi Hj. by apply (Hc j Hj).
    + intros i j Hi Hj. apply not_eq_sym. rewrite Nat.add_1_r. apply (Hc j Hj). lia.
    + intros i j Hi Hj. apply not_eq_sym. rewrite Nat.add_1_r. apply (Hr i Hi). lia.
  - right. intros i j Hi Hj. pose proof (proj1 (existsb_cells_false n _) E i j Hi Hj) as H.
    simpl in H. apply bool_decide_eq_false in H. destruct (decide (g.[i, j] = 0)); [done|contradiction].
Qed.

Lemma no_move_stuck_witness :
  shaped 4 checkerboard ∧ (∀ d, (move 4 d checkerboard 0).1.1 = false) ∧
  (canMove 4 checkerboard = false ∨
   (∀ i j, (i < 4)%nat → (j < 4)%nat → checkerboard.[i, j] = 0)).
Proof.
  assert (H1 : shaped 4 checkerboard) by decide_by_eval.
  assert (H2 : ∀ d, (move 4 d checkerboard 0).1.1 = false) by (intros []; vm_compute; reflexivity).
  split; [done|split; [done|exact (no_move_stuck 4 checkerboard 0 H1 H2)]].
Defined.

(** C11: [checkGameStatus] reports a win exactly when some cell is 2048,
    whatever else holds (the win test comes first), and "Game Over"
    exactly when no cell is 2048, every cell is occupied and no two
    neighbours are equal. *)
Theorem checkGameStatus_spec n g :
  (checkGameStatus n g = Won ↔ ∃ i j, (i < n)%nat ∧ (j < n)%nat ∧ g.[i, j] = 2048) ∧
  (checkGameStatus n g = GameOver ↔
     (∀ i j, (i < n)%nat → (j < n)%nat → g.[i, j] ≠ 2048) ∧ full n g ∧ no_pair n g).
Proof.
  unfold checkGameStatus, has_2048. rewrite <- canMove_false_iff.
  destruct (existsb _ (seq 0 n)) eqn:E.
  - apply existsb_cells_true in E as (i & j & Hi & Hj & E). apply bool_decide_eq_true in E.
    split; split; try done; [eauto|]. intros [Hno _]. by destruct (Hno i j Hi Hj).
  - pose proof (proj1 (existsb_cells_false n _) E) as Hno.
    split; split.
    + destruct (canMove n g); done.
    + intros (i & j & Hi & Hj & Hv). specialize (Hno i j Hi Hj). simpl in Hno.
      by apply bool_decide_eq_false in Hno.
    + destruct (canMove n g) eqn:Hc; [done|]. intros _. split; [|done].
      intros i j Hi Hj. specialize (Hno i j Hi Hj). simpl in Hno. by apply bool_decide_eq_false in Hno.
    + intros [_ ->]. done.
Qed.

End Status.
