(* ===== verification/Spawn.v ===== *)
(** * Spawn: [Game2048.addRandomTile] and [Game2048.init]

    [addRandomTile()] (src/script.js, lines 124-142) collects the empty
    cells row by row, picks [emptyCells[Math.floor(Math.random() *
    emptyCells.length)]], draws a second [Math.random()] for the value
    ([< 0.9 ? 2 : 4]) and writes it.  [init()] (lines 19-38) clears the
    grid and calls it twice.

    [Math.random()] is an injected random source ([RandomSource]): each
    draw is an integer [k] with [0 <= k < 2^53], standing for the double
    [k * 2^-53] (every double in [0,1) that engines return is of this
    form).  The product [Math.random() * n] is a double multiplication,
    modelled exactly: the real product [k * n * 2^-53] rounded to 53
    significant bits, ties to even ([round_to_53]); [Math.floor] is then
    exact.  The literal [0.9] is the double [8106479329266893 * 2^-53].

    The index is proved to stay below [emptyCells.length], so the
    [randomCell.x] read of line 138 never meets [undefined], and to
    split the draws into [len] slices that are equal up to two draws at
    each end. *)

From S2P Require Import Prelude Row Board.
Import Board.

Module Spawn.

(** ** The random source *)

Definition two53 : Z := 2 ^ 53.

(** What the game needs of [Math.random()]: a draw [k], read as the
    double [k * 2^-53] in [0, 1). *)
Class RandomSource (S : Type) := {
  next_random : S → Z * S;
  next_random_range : ∀ st, 0 <= (next_random st).1 < two53
}.

(** A replayable source: a list of draws, reduced to [0, 2^53), and 0
    once exhausted. *)
#[export] Program Instance list_source : RandomSource (list Z) := {
  next_random ks := match ks with [] => (0, []) | k :: ks' => (k mod two53, ks') end
}.
Next Obligation.
  intros [|k ks]; simpl; [unfold two53; lia|]. apply Z.mod_pos_bound. unfold two53. lia.
Qed.

(** ** Double arithmetic *)

(** Round a non-negative integer [p] to 53 significant bits, ties to
    even: the double nearest to [p * 2^-53], scaled by [2^53]. *)
Definition round_to_53 (p : Z) : Z :=
  let e := Z.max 0 (Z.log2 p - 52) in
  let q := p / 2 ^ e in
  let rem := p mod 2 ^ e in
  let half := 2 ^ e / 2 in
  let q' := if (0 <? e) && ((half <? rem) || ((rem =? half) && Z.odd q)) then q + 1 else q in
  q' * 2 ^ e.

(** [Math.floor(Math.random() * len)] for the draw [k]. *)
Definition random_index (k : Z) (len : nat) : nat :=
  Z.to_nat (round_to_53 (k * Z.of_nat len) / two53).

(** [Math.random() < 0.9 ? 2 : 4] (line 137). *)
Definition tile_value (k : Z) : Z := if k <? 8106479329266893 then 2 else 4.

(** ** The spawner *)

(** All cells in the order of the two nested loops (row by row). *)
Definition coords (size : nat) : list (nat * nat) := list_prod (seq 0 size) (seq 0 size).

(** Lines 125-133: [emptyCells.push({x: i, y: j})] for every zero cell. *)
Definition emptyCells (size : nat) (g : board) : list (nat * nat) :=
  filter (λ c, g.[c.1, c.2] = 0) (coords size).

(** Line 138: [this.grid[randomCell.x][randomCell.y] = value]. *)
Definition set_cell (g : board) (x y : nat) (v : Z) : board :=
  <[x := <[y := v]> (g !!! x)]> g.

(** Lines 124-142.  [None] is the [TypeError] that [randomCell.x] would
    throw if the index ran past the array; no [Math.random()] is drawn
    when there is no empty cell. *)
Definition addRandomTile {S} `{RandomSource S} (size : nat) (g : board) (st : S)
    : option board * S :=
  let cells := emptyCells size g in
  if decide (0 < length cells)%nat then
    let '(k1, st1) := next_random st in
    let '(k2, st2) := next_random st1 in
    match cells !! random_index k1 (length cells) with
    | Some (x, y) => (Some (set_cell g x y (tile_value k2)), st2)
    | None => (None, st2)
    end
  else (Some g, st).

(** Lines 21-27: the grid of zeros. *)
Definition empty_grid (size : nat) : board := replicate size (replicate size 0).

(** Lines 19-38 without the DOM writes: clear, then two spawns. *)
Definition init {S} `{RandomSource S} (size : nat) (st : S) : option board * S :=
  let '(g1, st1) := addRandomTile size (empty_grid size) st in
  match g1 with
  | Some g1 => addRandomTile size g1 st1
  | None => (None, st1)
  end.

(** ** Rounding lemmas *)

Lemma round_to_53_bounds p :
  0 <= p → 0 <= round_to_53 p <= p + 2 ^ Z.max 0 (Z.log2 p - 52) / 2.
Proof.
  intros Hp. unfold round_to_53.
  set (e := Z.max 0 (Z.log2 p - 52)).
  assert (He : 0 <= e) by lia.
  assert (Hpe : 0 < 2 ^ e) by (apply Z.pow_pos_nonneg; lia).
  pose proof (Z.div_mod p (2 ^ e) ltac:(lia)) as Hdm.
  pose proof (Z.mod_pos_bound p (2 ^ e) Hpe) as Hrem.
  assert (Hq : 0 <= p / 2 ^ e) by (apply Z.div_pos; lia).
  destruct (0 <? e) eqn:E0; simpl.
  - assert (Hhalf : 2 ^ e / 2 * 2 = 2 ^ e).
    { apply Z.ltb_lt in E0. replace e with (Z.succ (e - 1)) by lia.
      rewrite Z.pow_succ_r by lia. rewrite (Z.mul_comm 2 (2 ^ (e - 1))), Z.div_mul by lia. lia. }
    destruct ((2 ^ e / 2 <? p mod 2 ^ e) || ((p mod 2 ^ e =? 2 ^ e / 2) && Z.odd (p / 2 ^ e))) eqn:Ec.
    + assert (2 ^ e / 2 <= p mod 2 ^ e).
      { apply orb_true_iff in Ec as [Ec|Ec]; [apply Z.ltb_lt in Ec; lia|].
        apply andb_true_iff in Ec as [Ec _]. apply Z.eqb_eq in Ec. lia. }
      nia.
    + nia.
  - apply Z.ltb_ge in E0. assert (He0 : e = 0) by lia. rewrite He0, Z.pow_0_r, Z.div_1_r, Z.mul_1_r.
    change (1 / 2) with 0. lia.
Qed.

Lemma round_to_53_lower p :
  0 <= p → p - 2 ^ Z.max 0 (Z.log2 p - 52) / 2 <= round_to_53 p.
Proof.
  intros Hp. unfold round_to_53.
  set (e := Z.max 0 (Z.log2 p - 52)).
  assert (Hpe : 0 < 2 ^ e) by (apply Z.pow_pos_nonneg; lia).
  pose proof (Z.div_mod p (2 ^ e) ltac:(lia)) as Hdm.
  pose proof (Z.mod_pos_bound p (2 ^ e) Hpe) as Hrem.
  assert (Hh : 0 <= 2 ^ e / 2) by (apply Z.div_pos; lia).
  destruct (0 <? e) eqn:E0; simpl.
  - destruct ((2 ^ e / 2 <? p mod 2 ^ e) || ((p mod 2 ^ e =? 2 ^ e / 2) && Z.odd (p / 2 ^ e))) eqn:Ec.
    + lia.
    + apply orb_false_iff in Ec as [Ec _]. apply Z.ltb_ge in Ec. nia.
  - apply Z.ltb_ge in E0. assert (He0 : e = 0) by lia. rewrite He0, Z.pow_0_r, Z.div_1_r, Z.mul_1_r.
    change (1 / 2) with 0. lia.
Qed.

Lemma round_half_small p len :
  0 <= p < Z.of_nat len * two53 → 2 ^ Z.max 0 (Z.log2 p - 52) / 2 < Z.of_nat len \/ len = 0%nat.
Proof.
  intros Hp. destruct len as [|len]; [by right|left].
  destruct (Z.leb_spec (Z.log2 p - 52) 0).
  - rewrite Z.max_l by lia. change (2 ^ 0 / 2) with 0. lia.
  - rewrite Z.max_r by lia.
    assert (Hp0 : 0 < p) by (destruct (Z.eq_dec p 0) as [->|]; [simpl in *; lia|lia]).
    pose proof (Z.log2_spec p Hp0) as [Hlo _].
    replace (Z.log2 p - 52) with (Z.succ (Z.log2 p - 53)) by lia.
    rewrite Z.pow_succ_r by lia. rewrite (Z.mul_comm 2 (2 ^ (Z.log2 p - 53))), Z.div_mul by lia.
    replace (2 ^ Z.log2 p) with (2 ^ (Z.log2 p - 53) * two53) in Hlo
      by (unfold two53; rewrite <- Z.pow_add_r by lia; f_equal; lia).
    unfold two53 in *. nia.
Qed.

Lemma random_index_lt k len :
  0 <= k < two53 → (0 < len)%nat → (random_index k len < len)%nat.
Proof.
  intros Hk Hlen. unfold random_index.
  assert (Hp : 0 <= k * Z.of_nat len < Z.of_nat len * two53) by nia.
  pose proof (round_to_53_bounds (k * Z.of_nat len) ltac:(lia)) as Hr.
  destruct (round_half_small (k * Z.of_nat len) len Hp) as [Hh|]; [|lia].
  assert (round_to_53 (k * Z.of_nat len) < two53 * Z.of_nat len) by nia.
  assert (round_to_53 (k * Z.of_nat len) / two53 < Z.of_nat len)
    by (apply Z.div_lt_upper_bound; [unfold two53; lia|done]).
  assert (0 <= round_to_53 (k * Z.of_nat len) / two53) by (apply Z.div_pos; unfold two53 in *; lia).
  lia.
Qed.

(** ** Cells *)

Lemma NoDup_list_prod {A B} (l1 : list A) (l2 : list B) :
  NoDup l1 → NoDup l2 → NoDup (list_prod l1 l2).
Proof.
  induction l1 as [|a l1 IH]; intros H1 H2; simpl; [constructor|].
  apply NoDup_cons in H1 as [Ha H1]. apply NoDup_app. split_and!.
  - apply NoDup_fmap_2; [intros ?? [=]; done|done].
  - intros [x y] Hin Hin'. apply list_elem_of_In, in_map_iff in Hin as (? & [= -> ->] & _).
    apply list_elem_of_In, in_prod_iff in Hin' as [Hin' _]. by apply Ha, list_elem_of_In.
  - by apply IH.
Qed.

Lemma coords_NoDup n : NoDup (coords n).
Proof. apply NoDup_list_prod; apply NoDup_seq. Qed.

Lemma elem_of_coords n c : c ∈ coords n ↔ (c.1 < n)%nat ∧ (c.2 < n)%nat.
Proof.
  destruct c as [i j]. unfold coords. rewrite list_elem_of_In, in_prod_iff, !in_seq. simpl. lia.
Qed.

Lemma elem_of_emptyCells n g c :
  c ∈ emptyCells n g ↔ (c.1 < n)%nat ∧ (c.2 < n)%nat ∧ g.[c.1, c.2] = 0.
Proof. unfold emptyCells. rewrite list_elem_of_filter, elem_of_coords. tauto. Qed.

Lemma set_cell_shaped n g x y v : shaped n g → shaped n (set_cell g x y v).
Proof.
  intros Hg. unfold set_cell. destruct (decide (x < n)%nat).
  - apply shaped_insert; [done|]. rewrite length_insert. by apply (row_length n).
  - rewrite list_insert_ge; [done|]. destruct Hg; lia.
Qed.

Lemma set_cell_cell n g x y v i j :
  shaped n g → (x < n)%nat → (y < n)%nat → (i < n)%nat → (j < n)%nat →
  (set_cell g x y v).[i, j] = if decide (i = x ∧ j = y) then v else g.[i, j].
Proof.
  intros Hg Hx Hy Hi Hj. pose proof Hg as [Hl _]. unfold set_cell, cell.
  rewrite list_lookup_total_insert. case_decide as Hix.
  - destruct Hix as [<- _]. rewrite list_lookup_total_insert.
    pose proof (row_length n g x Hg Hx).
    repeat case_decide; destruct_and?; try subst j; try lia; done.
  - rewrite decide_False by lia. done.
Qed.

Lemma set_cell_sum n g x y v :
  shaped n g → (x < n)%nat → (y < n)%nat →
  board_sum (set_cell g x y v) = board_sum g - g.[x, y] + v.
Proof.
  intros Hg Hx Hy. pose proof Hg as [Hl _]. unfold board_sum, set_cell.
  rewrite list_fmap_insert, sumZ_insert by (rewrite length_fmap; lia).
  rewrite sumZ_insert by (rewrite (row_length n); [lia|done|done]).
  rewrite (list_lookup_total_fmap sumZ g x) by lia. unfold cell. lia.
Qed.

Lemma emptyCells_set_cell n g x y v :
  shaped n g → (x < n)%nat → (y < n)%nat → g.[x, y] = 0 → v ≠ 0 →
  (length (emptyCells n (set_cell g x y v)) + 1 = length (emptyCells n g))%nat.
Proof.
  intros Hg Hx Hy H0 Hv. unfold emptyCells.
  apply (filter_length_flip _ _ _ (x, y)).
  - apply coords_NoDup.
  - apply elem_of_coords. simpl. lia.
  - done.
  - simpl. rewrite (set_cell_cell n) by done. by rewrite decide_True.
  - intros [i j] Hin Hne. apply elem_of_coords in Hin as [Hi Hj]. simpl in *.
    rewrite (set_cell_cell n) by done. rewrite decide_False; [done|].
    intros [-> ->]. done.
Qed.

Lemma set_cell_tiles g x y v :
  tiles_ok g → tile_ok v = true → tiles_ok (set_cell g x y v).
Proof.
  intros Hg Hv. unfold set_cell, tiles_ok in *.
  destruct (decide (x < length g)%nat) as [Hx|Hx]; [|by rewrite list_insert_ge by lia].
  apply Forall_insert; [done|]. apply Forall_insert; [|done].
  rewrite Forall_lookup_total_iff in Hg. by apply Hg.
Qed.

Lemma tile_value_cases k : tile_value k = 2 ∨ tile_value k = 4.
Proof. unfold tile_value. destruct (k <? _); auto. Qed.

(** The spawn picks an empty cell and writes 2 or 4 there. *)
Lemma addRandomTile_cases {S} `{RandomSource S} n g (st : S) :
  (0 < length (emptyCells n g))%nat →
  ∃ x y v st', (x, y) ∈ emptyCells n g ∧ (v = 2 ∨ v = 4) ∧
    addRandomTile n g st = (Some (set_cell g x y v), st').
Proof.
  intros Hlen. unfold addRandomTile. rewrite decide_True by done.
  pose proof (next_random_range st) as Hr.
  destruct (next_random st) as [k1 st1]. destruct (next_random st1) as [k2 st2]. simpl in Hr.
  pose proof (random_index_lt k1 (length (emptyCells n g)) Hr Hlen) as Hi.
  rewrite list_lookup_lookup_total_lt by done.
  destruct (emptyCells n g !!! random_index k1 (length (emptyCells n g))) as [x y] eqn:Ec.
  exists x, y, (tile_value k2), st2. split_and!; [|apply tile_value_cases|done].
  rewrite <- Ec. apply list_elem_of_lookup_2 with (random_index k1 (length (emptyCells n g))).
  by apply list_lookup_lookup_total_lt.
Qed.

Lemma empty_grid_shaped n : shaped n (empty_grid n).
Proof.
  unfold empty_grid. split; [apply length_replicate|].
  apply Forall_replicate, length_replicate.
Qed.

Lemma empty_grid_cell n i j : (i < n)%nat → (j < n)%nat → (empty_grid n).[i, j] = 0.
Proof. intros. unfold cell, empty_grid. by rewrite !lookup_total_replicate_2. Qed.

Lemma empty_grid_tiles n : tiles_ok (empty_grid n).
Proof. unfold tiles_ok, empty_grid. by apply Forall_replicate, Forall_replicate. Qed.

Lemma emptyCells_empty_grid n : length (emptyCells n (empty_grid n)) = (n * n)%nat.
Proof.
  unfold emptyCells. rewrite filter_id_Forall.
  - unfold coords. by rewrite length_prod, length_seq.
  - apply Forall_forall. intros [i j] Hin. apply elem_of_coords in Hin as [Hi Hj].
    by apply empty_grid_cell.
Qed.

Lemma tile_ok_2_4 v : v = 2 ∨ v = 4 → tile_ok v = true.
Proof. intros [-> | ->]; done. Qed.

Lemma addRandomTile_ok {S} `{RandomSource S} n g (st : S) g' st' :
  board_ok n g → addRandomTile n g st = (Some g', st') → board_ok n g'.
Proof.
  intros [Hg Ht] Hadd. destruct (decide (0 < length (emptyCells n g))%nat) as [Hl|Hl].
  - destruct (addRandomTile_cases n g st Hl) as (x & y & v & st1 & _ & Hv & Heq).
    rewrite Heq in Hadd. injection Hadd as <- <-. split; [by apply set_cell_shaped|].
    apply set_cell_tiles; [done|by apply tile_ok_2_4].
  - unfold addRandomTile in Hadd. rewrite decide_False in Hadd by done.
    injection Hadd as <- <-. by split.
Qed.

(** The two spawns of [init] on the empty grid. *)
Lemma init_spec {S} `{RandomSource S} n (st : S) :
  (2 <= n * n)%nat →
  ∃ g1 st1 g st', addRandomTile n (empty_grid n) st = (Some g1, st1) ∧
    addRandomTile n g1 st1 = (Some g, st') ∧ board_ok n g ∧
    (length (emptyCells n g) + 2 = n * n)%nat ∧
    (∀ i j, (i < n)%nat → (j < n)%nat → g.[i, j] = 0 ∨ g.[i, j] = 2 ∨ g.[i, j] = 4).
Proof.
  intros Hn. pose proof (emptyCells_empty_grid n) as HE.
  destruct (addRandomTile_cases n (empty_grid n) st) as (x1 & y1 & v1 & st1 & Hin1 & Hv1 & Heq1);
    [lia|].
  apply elem_of_emptyCells in Hin1 as (Hx1 & Hy1 & H01). simpl in *.
  set (g1 := set_cell (empty_grid n) x1 y1 v1).
  assert (Hg1 : shaped n g1) by apply set_cell_shaped, empty_grid_shaped.
  pose proof (emptyCells_set_cell n (empty_grid n) x1 y1 v1 (empty_grid_shaped n) Hx1 Hy1 H01
    ltac:(lia)) as HE1. fold g1 in HE1.
  destruct (addRandomTile_cases n g1 st1) as (x2 & y2 & v2 & st2 & Hin2 & Hv2 & Heq2); [lia|].
  apply elem_of_emptyCells in Hin2 as (Hx2 & Hy2 & H02). simpl in *.
  exists g1, st1, (set_cell g1 x2 y2 v2), st2. split_and!; [done|done|split| |].
  - by apply set_cell_shaped.
  - apply set_cell_tiles; [apply set_cell_tiles; [apply empty_grid_tiles|]|]; by apply tile_ok_2_4.
  - pose proof (emptyCells_set_cell n g1 x2 y2 v2 Hg1 Hx2 Hy2 H02 ltac:(lia)). lia.
  - intros i j Hi Hj. rewrite (set_cell_cell n) by done. case_decide; [naive_solver|].
    unfold g1. rewrite (set_cell_cell n) by (done || apply empty_grid_shaped).
    case_decide; [naive_solver|]. rewrite empty_grid_cell by done. auto.
Qed.

(** ** Claims about the spawner *)

(** C12: [addRandomTile] never throws: on every grid and for every
    sequence of [Math.random()] draws, the index [Math.floor(r * n)]
    computed in double arithmetic names an existing empty cell (the
    rounding of [r * n] can never reach [n]). *)
Theorem addRandomTile_never_throws {S} `{RandomSource S} n g (st : S) :
  ∃ g', (addRandomTile n g st).1 = Some g'.
Proof.
  destruct (decide (0 < length (emptyCells n g))%nat) as [Hl|Hl].
  - destruct (addRandomTile_cases n g st Hl) as (x & y & v & st' & _ & _ & ->). eauto.
  - unfold addRandomTile. rewrite decide_False by done. eauto.
Qed.

(** C13: on a grid with an empty cell, [addRandomTile] writes 2 or 4
    into one empty cell and changes nothing else: the tile sum grows by
    the value written and one empty cell fewer remains. *)
Theorem addRandomTile_spawns {S} `{RandomSource S} n g (st : S) g' st' :
  shaped n g → emptyCells n g ≠ [] → addRandomTile n g st = (Some g', st') →
  ∃ x y, (x < n)%nat ∧ (y < n)%nat ∧ g.[x, y] = 0 ∧ (g'.[x, y] = 2 ∨ g'.[x, y] = 4) ∧
    (∀ i j, (i < n)%nat → (j < n)%nat → ¬ (i = x ∧ j = y) → g'.[i, j] = g.[i, j]) ∧
    board_sum g' = board_sum g + g'.[x, y] ∧
    (length (emptyCells n g') + 1 = length (emptyCells n g))%nat.
Proof.
  intros Hg Hne Hadd.
  assert (Hl : (0 < length (emptyCells n g))%nat) by (destruct (emptyCells n g); simpl; [done|lia]).
  destruct (addRandomTile_cases n g st Hl) as (x & y & v & st1 & Hin & Hv & Heq).
  rewrite Heq in Hadd. injection Hadd as <- <-.
  apply elem_of_emptyCells in Hin as (Hx & Hy & H0). simpl in *.
  assert (Hxy : (set_cell g x y v).[x, y] = v) by (rewrite (set_cell_cell n), decide_True; done).
  exists x, y. rewrite Hxy. split_and!; try done.
  - intros i j Hi Hj Hne'. rewrite (set_cell_cell n), decide_False; done.
  - rewrite (set_cell_sum n) by done. lia.
  - apply emptyCells_set_cell; try done. lia.
Qed.

Lemma addRandomTile_spawns_witness :
  shaped 4 sample ∧ emptyCells 4 sample ≠ [] ∧
  addRandomTile 4 sample [0; 0] = (Some (set_cell sample 0 2 2), []) ∧
  ∃ x y, (x < 4)%nat ∧ (y < 4)%nat ∧ sample.[x, y] = 0.
Proof.
  assert (H1 : shaped 4 sample) by decide_by_eval.
  assert (H2 : emptyCells 4 sample ≠ []) by (vm_compute; discriminate).
  assert (H3 : addRandomTile 4 sample [0; 0] = (Some (set_cell sample 0 2 2), []))
    by (vm_compute; reflexivity).
  split_and!; [done|done|done|].
  destruct (addRandomTile_spawns 4 sample [0; 0] _ _ H1 H2 H3) as (x & y & Hx & Hy & H0 & _).
  by exists x, y.
Defined.

Definition full_board : board := [[2; 4; 8; 16]; [4; 8; 16; 32]; [8; 16; 32; 64]; [16; 32; 64; 128]].

(** C14: on a full grid [addRandomTile] is a no-op: it neither changes
    the grid nor draws from [Math.random()]. *)
Theorem addRandomTile_full_noop {S} `{RandomSource S} n g (st : S) :
  emptyCells n g = [] → addRandomTile n g st = (Some g, st).
Proof. intros He. unfold addRandomTile. rewrite He. done. Qed.

Lemma addRandomTile_full_noop_witness :
  emptyCells 4 full_board = [] ∧
  addRandomTile 4 full_board [7] = (Some full_board, [7]).
Proof.
  assert (H : emptyCells 4 full_board = []) by (vm_compute; reflexivity).
  split; [done|exact (addRandomTile_full_noop 4 full_board [7] H)].
Defined.

(** C15: [init] seeds the grid with exactly two tiles, each 2 or 4,
    on any board of at least two cells and for any random draws; the
    result satisfies the board invariant. *)
Theorem init_two_tiles {S} `{RandomSource S} n (st : S) :
  (2 <= n * n)%nat →
  ∃ g st', init n st = (Some g, st') ∧ board_ok n g ∧
    (length (emptyCells n g) + 2 = n * n)%nat ∧
    (∀ i j, (i < n)%nat → (j < n)%nat → g.[i, j] = 0 ∨ g.[i, j] = 2 ∨ g.[i, j] = 4).
Proof.
  intros Hn. destruct (init_spec n st Hn) as (g1 & st1 & g & st' & H1 & H2 & Hok & Hc & Hv).
  exists g, st'. unfold init. rewrite H1, H2. done.
Qed.

Lemma init_two_tiles_witness :
  (2 <= 4 * 4)%nat ∧ ∃ g st', init 4 [5; 9000000000000000; 77] = (Some g, st') ∧ board_ok 4 g.
Proof.
  split; [lia|].
  destruct (init_two_tiles 4 [5; 9000000000000000; 77] ltac:(lia)) as (g & st' & Hi & Hok & _).
  by exists g, st'.
Defined.

(** C28: the cell index is uniform up to the rounding of one double
    product: for a list of [len] empty cells, a draw [k] (the double
    [k * 2^-53]) picks cell [i] whenever [k * len] lies in the slice
    [[i * 2^53, (i + 1) * 2^53)] with a margin of [len], and only if it
    lies in that slice widened by [len].  So the draws that pick each
    cell are the exact [1/len] share of [[0, 2^53)] give or take at
    most two draws at each end. *)
Theorem random_index_near_uniform k len i :
  0 <= k < two53 → (0 < len)%nat →
  (Z.of_nat i * two53 + Z.of_nat len <= k * Z.of_nat len < (Z.of_nat i + 1) * two53 - Z.of_nat len →
   random_index k len = i) ∧
  (random_index k len = i →
   Z.of_nat i * two53 - Z.of_nat len < k * Z.of_nat len < (Z.of_nat i + 1) * two53 + Z.of_nat len).
Proof.
  intros Hk Hlen. unfold random_index.
  assert (Hp : 0 <= k * Z.of_nat len < Z.of_nat len * two53) by nia.
  pose proof (round_to_53_bounds (k * Z.of_nat len) ltac:(lia)) as Hup.
  pose proof (round_to_53_lower (k * Z.of_nat len) ltac:(lia)) as Hlo.
  destruct (round_half_small (k * Z.of_nat len) len Hp) as [Hh|]; [|lia].
  set (r := round_to_53 (k * Z.of_nat len)) in *.
  assert (H53 : 0 < two53) by (unfold two53; lia).
  split.
  - intros Hin. enough (r / two53 = Z.of_nat i) as -> by lia.
    symmetry. apply Z.div_unique_pos with (r - Z.of_nat i * two53); lia.
  - intros Hi. assert (Hq : 0 <= r / two53) by (apply Z.div_pos; lia).
    assert (Hqi : r / two53 = Z.of_nat i) by lia.
    pose proof (Z.div_mod r two53 ltac:(lia)) as Hdm.
    pose proof (Z.mod_pos_bound r two53 H53). rewrite Hqi in Hdm. nia.
Qed.

Lemma random_index_near_uniform_witness :
  0 <= 4503599627370496 < two53 ∧ (0 < 3)%nat ∧ random_index 4503599627370496 3 = 1%nat.
Proof.
  assert (Hk : 0 <= 4503599627370496 < two53) by (unfold two53; lia).
  split; [done|split; [lia|]].
  apply (random_index_near_uniform 4503599627370496 3 1 Hk ltac:(lia)).
  unfold two53. lia.
Defined.

End Spawn.
