(* ===== verification/Best.v ===== *)
(** * Best: the best score kept in [localStorage]

    [updateDisplay()] (src/script.js, lines 182-187) reads
    [parseInt(localStorage.getItem('best2048') || '0')], replaces it by
    [this.score] when the score is larger and writes it back with
    [best.toString()]; [loadBestScore()] (lines 393-396) only reads it.
    The stored value is a string that any page of the origin may have
    written, so the model parses it with JavaScript's [parseInt] as
    specified (leading white space, a sign, a [0x] prefix, the longest
    prefix of digits, [NaN] when there is none): [None] is [NaN].

    Strings are Stdlib strings of 8-bit characters; white space is the
    ASCII white space and the no-break space (160).  [toString] is the
    decimal form of an integer, which is what [Number.prototype.toString]
    prints for integers below 10^21 (a 4x4 score stays below 2^22).
    Digit strings are parsed exactly as integers, which is what
    [parseInt] returns for values below 2^53; the theorems only parse
    strings the game itself writes, or state what happens on strings
    with no digits. *)

From Stdlib Require Import String Ascii.
From S2P Require Import Prelude.

Module Best.

(** ** [parseInt] *)

(** The white space [parseInt] skips (StrWhiteSpaceChar in 8 bits). *)
Definition is_ws (c : ascii) : bool :=
  let n := nat_of_ascii c in ((9 <=? n) && (n <=? 13))%nat || (n =? 32)%nat || (n =? 160)%nat.

Fixpoint trim_start (s : string) : string :=
  match s with
  | EmptyString => s
  | String c s' => if is_ws c then trim_start s' else s
  end.

(** The value of a character as a digit in radix up to 36. *)
Definition digit_val (c : ascii) : option Z :=
  let n := Z.of_nat (nat_of_ascii c) in
  if (48 <=? n) && (n <=? 57) then Some (n - 48)
  else if (97 <=? n) && (n <=? 122) then Some (n - 87)
  else if (65 <=? n) && (n <=? 90) then Some (n - 55)
  else None.

(** The longest prefix of digits of [radix], accumulated into [acc];
    [seen] records that at least one digit was read. *)
Fixpoint digits_prefix (radix : Z) (s : string) (acc : Z) (seen : bool) : option Z :=
  match s with
  | EmptyString => if seen then Some acc else None
  | String c s' =>
      match digit_val c with
      | Some d => if d <? radix then digits_prefix radix s' (acc * radix + d) true
                  else if seen then Some acc else None
      | None => if seen then Some acc else None
      end
  end.

(** [parseInt(string)] with no radix: white space, sign, [0x]/[0X]
    selecting radix 16, then the digits. *)
Definition parseInt (s : string) : option Z :=
  let s := trim_start s in
  let '(sign, s) :=
    match s with
    | String "-"%char s' => (-1, s')
    | String "+"%char s' => (1, s')
    | _ => (1, s)
    end in
  let '(radix, s) :=
    match s with
    | String "0"%char (String x s') => if (x =? "x")%char || (x =? "X")%char then (16, s') else (10, s)
    | _ => (10, s)
    end in
  option_map (Z.mul sign) (digits_prefix radix s 0 false).

(** ** [Number.prototype.toString] on integers *)

Definition digit_char (d : Z) : ascii := ascii_of_nat (Z.to_nat (48 + d)).

(** The decimal digits of [n], in front of [acc]; [fuel] bounds the
    number of digits. *)
Fixpoint digits_aux (fuel : nat) (n : Z) (acc : string) : string :=
  match fuel with
  | O => acc
  | S f =>
      let acc := String (digit_char (n mod 10)) acc in
      if n <? 10 then acc else digits_aux f (n / 10) acc
  end.

(** A number has at most [log2 n + 1] decimal digits, the fuel given. *)
Definition toString (n : Z) : string :=
  if n <? 0 then String "-"%char (digits_aux (S (Z.to_nat (Z.log2 (- n)))) (- n) EmptyString)
  else digits_aux (S (Z.to_nat (Z.log2 n))) n EmptyString.

(** ** The two methods *)

(** [localStorage.getItem('best2048') || '0']: [null] and [''] are falsy. *)
Definition stored_or_zero (v : option string) : string :=
  match v with
  | Some s => if String.eqb s EmptyString then "0"%string else s
  | None => "0"%string
  end.

(** Lines 182-187: the new stored value and the best score displayed
    ([None] displays [NaN]: [this.score > NaN] is false). *)
Definition update_best (score : Z) (store : option string) : option string * option Z :=
  match parseInt (stored_or_zero store) with
  | Some best => if best <? score then (Some (toString score), Some score) else (store, Some best)
  | None => (store, None)
  end.

(** Lines 393-396: the value displayed. *)
Definition loadBestScore (store : option string) : option Z := parseInt (stored_or_zero store).

(** ** Lemmas *)

Definition is_digit (c : ascii) : bool :=
  let n := nat_of_ascii c in ((48 <=? n) && (n <=? 57))%nat.

Fixpoint all_digits (s : string) : bool :=
  match s with EmptyString => true | String c s' => is_digit c && all_digits s' end.

Lemma digit_char_val d : 0 <= d < 10 → digit_val (digit_char d) = Some d.
Proof.
  intros Hd.
  assert (d = 0 ∨ d = 1 ∨ d = 2 ∨ d = 3 ∨ d = 4 ∨ d = 5 ∨ d = 6 ∨ d = 7 ∨ d = 8 ∨ d = 9)
    as H by lia.
  by repeat destruct H as [-> | H]; [..|subst d].
Qed.

Lemma digit_char_digit d : 0 <= d < 10 → is_digit (digit_char d) = true.
Proof.
  intros Hd.
  assert (d = 0 ∨ d = 1 ∨ d = 2 ∨ d = 3 ∨ d = 4 ∨ d = 5 ∨ d = 6 ∨ d = 7 ∨ d = 8 ∨ d = 9)
    as H by lia.
  by repeat destruct H as [-> | H]; [..|subst d].
Qed.

Lemma digits_aux_S f n acc :
  digits_aux (S f) n acc =
  if n <? 10 then String (digit_char (n mod 10)) acc
  else digits_aux f (n / 10) (String (digit_char (n mod 10)) acc).
Proof. done. Qed.

Lemma digit_parse_one d acc a seen :
  0 <= d < 10 →
  digits_prefix 10 (String (digit_char d) acc) a seen = digits_prefix 10 acc (a * 10 + d) true.
Proof.
  intros Hd. cbn [digits_prefix]. rewrite digit_char_val by done.
  by rewrite (proj2 (Z.ltb_lt d 10)) by lia.
Qed.

(** Parsing the digits of [n] from 0 reaches [n], then goes on. *)
Lemma digits_aux_parse f n acc seen :
  0 <= n < 10 ^ Z.of_nat (S f) →
  digits_prefix 10 (digits_aux (S f) n acc) 0 seen = digits_prefix 10 acc n true.
Proof.
  revert n acc seen. induction f as [|f IH]; intros n acc seen Hn;
    rewrite digits_aux_S; pose proof (Z.mod_pos_bound n 10 ltac:(lia)) as Hm;
    destruct (Z.ltb_spec n 10) as [Hlt|Hge];
    try (rewrite digit_parse_one, Z.mod_small by lia; done).
  - simpl in Hn. lia.
  - rewrite IH by (rewrite Nat2Z.inj_succ, Z.pow_succ_r in Hn by lia;
                   split; [apply Z.div_pos|apply Z.div_lt_upper_bound]; lia).
    rewrite digit_parse_one by done. by rewrite Z.mul_comm, <- Z.div_mod by lia.
Qed.

Lemma digits_aux_shape f n acc :
  0 <= n → all_digits acc = true →
  ∃ c r, digits_aux (S f) n acc = String c r ∧ is_digit c = true ∧ all_digits r = true.
Proof.
  revert n acc. induction f as [|f IH]; intros n acc Hn Hacc.
  - cbn. destruct (n <? 10); eexists _, _; split_and!; try done;
      apply digit_char_digit, Z.mod_pos_bound; lia.
  - cbn [digits_aux]. destruct (n <? 10).
    + eexists _, _; split_and!; try done. apply digit_char_digit, Z.mod_pos_bound; lia.
    + apply IH; [apply Z.div_pos; lia|]. cbn [all_digits].
      rewrite digit_char_digit, Hacc by (apply Z.mod_pos_bound; lia). done.
Qed.

Lemma digit_not_special c :
  is_digit c = true →
  is_ws c = false ∧ c ≠ "-"%char ∧ c ≠ "+"%char ∧ (c =? "x")%char = false ∧ (c =? "X")%char = false.
Proof.
  unfold is_digit, is_ws. intros Hc.
  apply andb_true_iff in Hc as [H1 H2]. apply Nat.leb_le in H1, H2.
  split_and!.
  - rewrite (proj2 (Nat.leb_gt (nat_of_ascii c) 13)), (proj2 (Nat.eqb_neq (nat_of_ascii c) 32)),
      (proj2 (Nat.eqb_neq (nat_of_ascii c) 160)) by lia.
    by rewrite andb_false_r.
  - intros ->. vm_compute in H1. lia.
  - intros ->. vm_compute in H1. lia.
  - apply Ascii.eqb_neq. intros ->. vm_compute in H2. lia.
  - apply Ascii.eqb_neq. intros ->. vm_compute in H2. lia.
Qed.

(** [log2 n + 1] is enough fuel for the decimal digits of [n]. *)
Lemma toString_fuel n : 0 <= n → n < 10 ^ Z.of_nat (S (Z.to_nat (Z.log2 n))).
Proof.
  intros Hn. destruct (Z.eq_dec n 0) as [->|Hn0]; [simpl; lia|].
  pose proof (Z.log2_spec n ltac:(lia)) as [_ Hl].
  rewrite Nat2Z.inj_succ, Z2Nat.id by apply Z.log2_nonneg.
  eapply Z.lt_le_trans; [exact Hl|]. apply Z.pow_le_mono_l. lia.
Qed.

(** The ten decimal digits, by evaluation on the 256 characters. *)
Lemma digit_chars c :
  is_digit c = true →
  c = "0"%char ∨ c = "1"%char ∨ c = "2"%char ∨ c = "3"%char ∨ c = "4"%char ∨
  c = "5"%char ∨ c = "6"%char ∨ c = "7"%char ∨ c = "8"%char ∨ c = "9"%char.
Proof.
  intros H. destruct c as [[] [] [] [] [] [] [] []]; vm_compute in H; try discriminate H;
    repeat first [left; reflexivity | right]; reflexivity.
Qed.

(** On a string of digits [parseInt] is the decimal digit scan. *)
Lemma parseInt_digits c r :
  is_digit c = true → all_digits r = true →
  parseInt (String c r) = option_map (Z.mul 1) (digits_prefix 10 (String c r) 0 false).
Proof.
  intros Hc Hr. unfold parseInt. cbn [trim_start].
  rewrite (proj1 (digit_not_special c Hc)).
  apply digit_chars in Hc. repeat destruct Hc as [-> | Hc]; [|try subst c; reflexivity..].
  destruct r as [|x r]; [reflexivity|]. cbn [all_digits] in Hr.
  apply andb_true_iff in Hr as [Hx _]. apply digit_chars in Hx.
  by repeat destruct Hx as [-> | Hx]; [..|subst x].
Qed.

Lemma toString_shape n :
  0 <= n → ∃ c r, toString n = String c r ∧ is_digit c = true ∧ all_digits r = true.
Proof.
  intros Hn. unfold toString. rewrite (proj2 (Z.ltb_ge n 0)) by lia.
  by apply digits_aux_shape.
Qed.

Lemma toString_nonempty n : 0 <= n → String.eqb (toString n) EmptyString = false.
Proof. intros Hn. destruct (toString_shape n Hn) as (c & r & -> & _). done. Qed.

(** The round trip, for the proofs of the page's invariants. *)
Lemma parse_toString n : 0 <= n → parseInt (toString n) = Some n.
Proof.
  intros Hn. destruct (toString_shape n Hn) as (c & r & Heq & Hc & Hr).
  rewrite Heq, parseInt_digits by done. rewrite <- Heq.
  unfold toString. rewrite (proj2 (Z.ltb_ge n 0)) by lia.
  rewrite digits_aux_parse by (split; [done|by apply toString_fuel]).
  cbn. by rewrite Z.mul_1_l.
Qed.

(** What [updateDisplay] leaves in the store, on a parsable one. *)
Lemma update_best_parse x store b :
  0 <= x → parseInt (stored_or_zero store) = Some b →
  parseInt (stored_or_zero (update_best x store).1) = Some (Z.max b x).
Proof.
  intros Hs Hb. unfold update_best. rewrite Hb.
  destruct (Z.ltb_spec b x); cbn.
  - rewrite toString_nonempty, parse_toString by done. by rewrite Z.max_r by lia.
  - by rewrite Hb, Z.max_l by lia.
Qed.

(** On a store that does not parse, [updateDisplay] writes nothing. *)
Lemma update_best_nan x store :
  parseInt (stored_or_zero store) = None → update_best x store = (store, None).
Proof. intros H. unfold update_best. by rewrite H. Qed.

(** After [updateDisplay] with a non-negative score, the stored best,
    if it parses, is at least that score. *)
Lemma update_best_ge x store :
  0 <= x →
  match parseInt (stored_or_zero (update_best x store).1) with Some b => x <= b | None => True end.
Proof.
  intros Hx. destruct (parseInt (stored_or_zero store)) as [b|] eqn:Hb.
  - rewrite (update_best_parse x store b Hx Hb). lia.
  - rewrite (update_best_nan x store Hb). cbn [fst]. by rewrite Hb.
Qed.

(** ** Claims about the best score *)

(** C24: [updateDisplay] keeps the maximum: when the stored best parses
    to [b] and the score is non-negative, the value stored afterwards
    parses to [max b score], and that is the best score displayed. *)
Theorem update_best_max score store b :
  0 <= score → parseInt (stored_or_zero store) = Some b →
  parseInt (stored_or_zero (update_best score store).1) = Some (Z.max b score) ∧
  (update_best score store).2 = Some (Z.max b score).
Proof.
  intros Hs Hb. split; [by apply update_best_parse|].
  unfold update_best. rewrite Hb. destruct (Z.ltb_spec b score); cbn; f_equal; lia.
Qed.

Lemma update_best_max_witness :
  0 <= 100 ∧ parseInt (stored_or_zero (Some " 64abc"%string)) = Some 64 ∧
  (update_best 100 (Some " 64abc"%string)).1 = Some "100"%string ∧
  (update_best 100 (Some " 64abc"%string)).2 = Some 100.
Proof.
  assert (H : parseInt (stored_or_zero (Some " 64abc"%string)) = Some 64) by reflexivity.
  destruct (update_best_max 100 (Some " 64abc"%string) 64 ltac:(lia) H) as [_ H2].
  split_and!; [lia|done|reflexivity|exact H2].
Defined.

End Best.
