(* ===== verification/Exit.v ===== *)
(** * Exit: [Game2048.exitGame] and leaving the page

    [exitGame()] (src/script.js, lines 359-380) asks
    [confirm('Are you sure you want to exit the game?')].  On [true] it
    calls [window.close()] when [window.close] is defined; otherwise it
    shows "Thanks for playing!" with the [game-over] class and schedules
    a 2000 ms callback that leaves the page ([navigator.app.exitApp()],
    [window.history.back()] or [about:blank]; each of them ends the
    page).  On [false] nothing happens.

    The part of the page this touches is the Record [exit_state]:
    - [prompts]: the [confirm] dialogs opened so far;
    - [answers]: the answers the user will give to the next dialogs, in
      order (an exhausted list answers [false], a dismissed dialog);
    - [window_close]: [None] when [window.close] is undefined,
      [Some true] when it closes the page, [Some false] when the browser
      ignores it (browsers only let a script close a window that a
      script opened);
    - [exit_timers]: the 2000 ms callbacks not yet run;
    - [page_gone]: the page was closed or navigated away.
    A [window.close()] that the browser honours, like a navigation,
    takes effect once the current event is over: the model sets
    [page_gone], and [Game.step] runs no listener on a gone page.

    The message part of the fallback is [Game.showMessage]; here
    [exit_dialog] returns whether to show it. *)

From S2P Require Import Prelude.

Module Exit.

(** ** State *)

Record exit_state := mkExit {
  prompts : nat;
  answers : list bool;
  window_close : option bool;
  exit_timers : nat;
  page_gone : bool
}.

(** A page that has not been asked to exit yet. *)
Definition exit_init (answers0 : list bool) (wclose : option bool) : exit_state :=
  mkExit 0 answers0 wclose 0 false.

(** ** Operations *)

(** [confirm(...)]: the next answer, [false] once none is left. *)
Definition confirm (ex : exit_state) : bool * exit_state :=
  match answers ex with
  | [] => (false, mkExit (S (prompts ex)) [] (window_close ex) (exit_timers ex) (page_gone ex))
  | a :: rest => (a, mkExit (S (prompts ex)) rest (window_close ex) (exit_timers ex) (page_gone ex))
  end.

(** Lines 360-378 without the message: the new exit state, and whether
    the fallback shows "Thanks for playing!". *)
Definition exit_dialog (ex : exit_state) : exit_state * bool :=
  let '(yes, ex) := confirm ex in
  if yes then
    match window_close ex with
    | Some closes =>
        (mkExit (prompts ex) (answers ex) (window_close ex) (exit_timers ex)
           (page_gone ex || closes), false)
    | None =>
        (mkExit (prompts ex) (answers ex) (window_close ex) (S (exit_timers ex)) (page_gone ex),
         true)
    end
  else (ex, false).

(** The 2000 ms callback (lines 367-377): every branch leaves the page. *)
Definition exit_timer_fire (ex : exit_state) : exit_state :=
  match exit_timers ex with
  | O => ex
  | S n => mkExit (prompts ex) (answers ex) (window_close ex) n true
  end.

(** ** Lemmas *)

Lemma confirm_fields ex :
  prompts (confirm ex).2 = S (prompts ex) ∧ window_close (confirm ex).2 = window_close ex ∧
  exit_timers (confirm ex).2 = exit_timers ex ∧ page_gone (confirm ex).2 = page_gone ex.
Proof. unfold confirm. by destruct (answers ex). Qed.

(** A dialog never cancels a pending navigation nor brings a page back. *)
Lemma exit_dialog_mono ex :
  (exit_timers ex <= exit_timers (exit_dialog ex).1)%nat ∧
  (page_gone ex = true → page_gone (exit_dialog ex).1 = true).
Proof.
  unfold exit_dialog, confirm.
  repeat case_match; simplify_eq/=; split; try lia; intros Hg; by rewrite Hg.
Qed.

End Exit.
