(* ===== verification/Game.v ===== *)
(** * Game: the [Game2048] object and its event handlers

    The object's state ([this.grid], [this.score], [this.size]), the part
    of the page the game reads back or sets as state (the message box and
    the [game-won] / [game-over] classes of [document.body]), the closure
    variables [startX] / [startY] of the touch handlers (lines 96-121),
    the [localStorage] value ['best2048'] that [updateDisplay] reads and
    writes, the random source behind [Math.random()], and the 150 ms
    timers that [move] schedules (lines 294-297) are one Record.  Each
    browser event is a constructor of [event]; [step] runs every listener
    the event reaches, in registration order.  A [setTimeout] callback is
    a [TimerFire] event: the timers only reference [this], so the queue
    is a count of pending callbacks.

    [exitGame] is the branch structure of [Exit.exit_dialog] plus the
    "Thanks for playing!" message; [ExitTimerFire] is its 2000 ms
    callback.  A page that is gone runs no listener ([step] on
    [dispatch]).  The DOM output
    of [createTile] and of the tile and score part of [updateDisplay] is
    not part of this state.

    The theorems prove the invariant of every reachable state by rule
    induction on [reachable] ([step_inv] per event), show that an
    accepted move followed by its timer is the spec's move step, and
    state the behaviours the listeners and timers add to [move]: a spawn
    left pending across New Game, moves overtaking spawns, taps, touches
    at coordinate 0, Escape on CloudFone, a stored best score that
    parses as [NaN], and what a confirmed exit does; the liveness
    theorem says that a confirmed exit without [window.close] leaves
    the page.  The witnesses run concrete traces with a [list Z]
    of draws as the random source. *)

From Stdlib Require Import String.
From S2P Require Import Prelude Row Board Status Spawn Best Exit.
Import Board Status Spawn Best Exit.

Module Game.

Local Open Scope string_scope.

(** ** State *)

Record game {Rng : Type} := mkGame {
  grid : board;
  score : Z;
  size : nat;
  pending : nat;          (** [setTimeout] callbacks of line 294 not yet run *)
  msg_shown : bool;       (** [messageContainer.style.display === 'block'] *)
  msg_text : string;      (** the text of the message paragraph *)
  body_won : bool;        (** [document.body] has class [game-won] *)
  body_over : bool;       (** [document.body] has class [game-over] *)
  start_x : option Z;     (** [startX]; [None] is [undefined] / [null] *)
  start_y : option Z;
  exiting : exit_state;   (** what [exitGame] touches (Exit.v) *)
  best_store : option string; (** [localStorage.getItem('best2048')] *)
  rng : Rng
}.
Arguments game : clear implicits.
Arguments mkGame {Rng}.

Section Handlers.
Context {Rng : Type} `{RandomSource Rng}.

Definition set_board (g : board) (r : Rng) (st : game Rng) : game Rng :=
  mkGame g (score st) (size st) (pending st) (msg_shown st) (msg_text st) (body_won st)
    (body_over st) (start_x st) (start_y st) (exiting st) (best_store st) r.

Definition set_score (s : Z) (st : game Rng) : game Rng :=
  mkGame (grid st) s (size st) (pending st) (msg_shown st) (msg_text st) (body_won st)
    (body_over st) (start_x st) (start_y st) (exiting st) (best_store st) (rng st).

Definition set_pending (p : nat) (st : game Rng) : game Rng :=
  mkGame (grid st) (score st) (size st) p (msg_shown st) (msg_text st) (body_won st)
    (body_over st) (start_x st) (start_y st) (exiting st) (best_store st) (rng st).

Definition set_touch (x y : option Z) (st : game Rng) : game Rng :=
  mkGame (grid st) (score st) (size st) (pending st) (msg_shown st) (msg_text st)
    (body_won st) (body_over st) x y (exiting st) (best_store st) (rng st).

(** [localStorage.setItem('best2048', ...)], or nothing. *)
Definition set_best (b : option string) (st : game Rng) : game Rng :=
  mkGame (grid st) (score st) (size st) (pending st) (msg_shown st) (msg_text st)
    (body_won st) (body_over st) (start_x st) (start_y st) (exiting st) b (rng st).

(** The state part of [updateDisplay()] (lines 165-188): the best score. *)
Definition updateDisplay (st : game Rng) : game Rng :=
  set_best (update_best (score st) (best_store st)).1 st.

(** ** Messages (lines 342-351) *)

(** [showMessage(text, className)]. *)
Definition showMessage (text : string) (className : string) (st : game Rng) : game Rng :=
  mkGame (grid st) (score st) (size st) (pending st) true text
    (body_won st || String.eqb className "game-won")
    (body_over st || String.eqb className "game-over")
    (start_x st) (start_y st) (exiting st) (best_store st) (rng st).

(** [hideMessage()]: hide the box, drop both classes. *)
Definition hideMessage (st : game Rng) : game Rng :=
  mkGame (grid st) (score st) (size st) (pending st) false (msg_text st) false false
    (start_x st) (start_y st) (exiting st) (best_store st) (rng st).

(** ** Handlers *)

(** [checkGameStatus()] with its messages (lines 301-316). *)
Definition check_status (st : game Rng) : game Rng :=
  match checkGameStatus (size st) (grid st) with
  | Won => showMessage "You Win!" "game-won" st
  | GameOver => showMessage "Game Over!" "game-over" st
  | Playing => st
  end.

(** [move(direction)] (lines 190-299): the loops update the score, an
    accepted move installs the grid and schedules the 150 ms callback. *)
Definition handle_move (d : direction) (st : game Rng) : game Rng :=
  let '(moved, g, s) := move (size st) d (grid st) (score st) in
  let st := set_score s st in
  if moved then set_pending (S (pending st)) (updateDisplay (set_board g (rng st) st)) else st.

(** The 150 ms callback (lines 294-297): [addRandomTile(); checkGameStatus();].
    A [TypeError] in [addRandomTile] would skip the status check. *)
Definition timer_fire (st : game Rng) : game Rng :=
  match pending st with
  | O => st
  | S p =>
      let st := set_pending p st in
      match addRandomTile (size st) (grid st) (rng st) with
      | (Some g, r) => check_status (set_board g r st)
      | (None, r) => set_board (grid st) r st
      end
  end.

(** [init()] (lines 19-38): clear the grid, two spawns, [updateDisplay()];
    a [TypeError] in a spawn would leave the grid as far as it got and
    skip the display update. *)
Definition run_init (st : game Rng) : game Rng :=
  let g0 := empty_grid (size st) in
  match addRandomTile (size st) g0 (rng st) with
  | (Some g1, r1) =>
      match addRandomTile (size st) g1 r1 with
      | (Some g2, r2) => updateDisplay (set_board g2 r2 st)
      | (None, r2) => set_board g1 r2 st
      end
  | (None, r1) => set_board g0 r1 st
  end.

(** [newGame()] (lines 353-357). *)
Definition newGame (st : game Rng) : game Rng := run_init (set_score 0 (hideMessage st)).

Definition set_exit (ex : exit_state) (st : game Rng) : game Rng :=
  mkGame (grid st) (score st) (size st) (pending st) (msg_shown st) (msg_text st)
    (body_won st) (body_over st) (start_x st) (start_y st) ex (best_store st) (rng st).

(** [exitGame()] (lines 359-380): the dialog of [Exit.exit_dialog], then
    "Thanks for playing!" when [window.close] is undefined. *)
Definition exitGame (st : game Rng) : game Rng :=
  let '(ex, fallback) := exit_dialog (exiting st) in
  let st := set_exit ex st in
  if fallback then showMessage "Thanks for playing!" "game-over" st else st.

(** What a listener asks the game to do. *)
Inductive action := AMove (d : direction) | ANewGame | AExit.

Definition run_action (a : action) (st : game Rng) : game Rng :=
  match a with
  | AMove d => handle_move d st
  | ANewGame => newGame st
  | AExit => exitGame st
  end.

End Handlers.

(** The keydown listener of [setupEventListeners] (lines 42-78). *)
Definition game_key_action (key : string) : option action :=
  if String.eqb key "ArrowUp" then Some (AMove Up)
  else if String.eqb key "ArrowDown" then Some (AMove Down)
  else if String.eqb key "ArrowLeft" then Some (AMove Left)
  else if String.eqb key "ArrowRight" then Some (AMove Right)
  else if String.eqb key "Escape" then Some AExit
  else if String.eqb key "F1" || String.eqb key "SoftLeft" then Some ANewGame
  else if String.eqb key "F2" || String.eqb key "SoftRight" || String.eqb key "Backspace"
  then Some AExit
  else None.

(** The keydown listener [optimizeForCloudFone] adds on CloudFone
    devices (lines 418-425): [e.key === 'EndCall' || e.keyCode === 27]. *)
Definition cloudfone_key_action (key : string) (keyCode : Z) : option action :=
  if String.eqb key "EndCall" || Z.eqb keyCode 27 then Some AExit else None.

(** Both listeners on [document], in registration order: the page runs
    [optimizeForCloudFone()] before [new Game2048()] (lines 447-450). *)
Definition key_actions (cloudfone : bool) (key : string) (keyCode : Z) : list action :=
  (if cloudfone then option_list (cloudfone_key_action key keyCode) else []) ++
  option_list (game_key_action key).

(** [!startX || !startY]: [undefined], [null] and [0] are falsy. *)
Definition falsy (v : option Z) : bool :=
  match v with None => true | Some x => Z.eqb x 0 end.

(** Lines 108-117: the direction of a swipe. *)
Definition swipe_direction (sx sy ex ey : Z) : direction :=
  let diffX := sx - ex in
  let diffY := sy - ey in
  if Z.ltb (Z.abs diffY) (Z.abs diffX) then (if Z.ltb 0 diffX then Left else Right)
  else (if Z.ltb 0 diffY then Up else Down).

(** The browser events the page listens to. *)
Inductive event :=
  | KeyDown (key : string) (keyCode : Z)
  | SoftLeftClick                         (** [#soft-key-left] (lines 81-83) *)
  | SoftRightClick                        (** [#soft-key-right] (lines 85-87) *)
  | RetryClick                            (** [.retry-button] (lines 90-93) *)
  | TouchStart (x y : Z)                  (** lines 97-100 *)
  | TouchEnd (x y : Z)                    (** lines 102-121 *)
  | TimerFire                             (** a pending 150 ms callback *)
  | ExitTimerFire.                        (** a pending 2000 ms exit callback *)

Section Step.
Context {Rng : Type} `{RandomSource Rng}.

(** The listeners one event reaches, on a page whose user agent is or
    is not CloudFone. *)
Definition dispatch (cloudfone : bool) (st : game Rng) (ev : event) : game Rng :=
  match ev with
  | KeyDown key code => foldl (λ st a, run_action a st) st (key_actions cloudfone key code)
  | SoftLeftClick | RetryClick => newGame st
  | SoftRightClick => exitGame st
  | TouchStart x y => set_touch (Some x) (Some y) st
  | TouchEnd x y =>
      match start_x st, start_y st with
      | Some sx, Some sy =>
          if falsy (Some sx) || falsy (Some sy) then st
          else set_touch None None (handle_move (swipe_direction sx sy x y) st)
      | _, _ => st
      end
  | TimerFire => timer_fire st
  | ExitTimerFire => set_exit (exit_timer_fire (exiting st)) st
  end.

(** One event: a page that was closed or left runs no listener. *)
Definition step (cloudfone : bool) (st : game Rng) (ev : event) : game Rng :=
  if page_gone (exiting st) then st else dispatch cloudfone st ev.

(** The constructor (lines 5-17): [grid = []], [score = 0], [size = 4],
    then [init()] and [loadBestScore()], which only displays; the message
    box starts hidden, [store0] is what [localStorage] holds, [answers0]
    the user's answers to exit dialogs and [wclose] what [window.close]
    does. *)
Definition construct (r : Rng) (store0 : option string) (answers0 : list bool)
    (wclose : option bool) : game Rng :=
  run_init (mkGame [] 0 4 0 false "" false false None None (exit_init answers0 wclose) store0 r).

(** States the page can reach from the constructor, on a device that is
    or is not CloudFone and with [store0] in [localStorage] at load. *)
Inductive reachable (cloudfone : bool) (store0 : option string) : game Rng → Prop :=
  | reach_init r answers0 wclose : reachable cloudfone store0 (construct r store0 answers0 wclose)
  | reach_step st ev :
      reachable cloudfone store0 st → reachable cloudfone store0 (step cloudfone st ev).

End Step.

(** ** The invariant of the page's states *)

(** The stored best score, when it parses, is at least the score. *)
Definition best_ok {Rng} (st : game Rng) : Prop :=
  match parseInt (stored_or_zero (best_store st)) with Some b => score st <= b | None => True end.

(** The board invariant, a non-negative score, the 4x4 size of the
    constructor, the two touch variables set and cleared together, and
    [best_ok]. *)
Definition game_inv {Rng} (st : game Rng) : Prop :=
  size st = 4%nat ∧ board_ok 4 (grid st) ∧ 0 <= score st ∧
  (start_x st = None ↔ start_y st = None) ∧ best_ok st.

(** Reduce field accesses of the record updates, and nothing else. *)
Ltac proj_simpl :=
  unfold game_inv, best_ok, updateDisplay, set_best, set_board, set_score, set_pending, set_touch,
    set_exit in *;
  cbn [grid score size pending msg_shown msg_text body_won body_over start_x start_y
       exiting best_store rng fst snd] in *.

Section Lemmas.
Context {Rng : Type} `{RandomSource Rng}.
Implicit Types st : game Rng.

Lemma step_live cf st ev : page_gone (exiting st) = false → step cf st ev = dispatch cf st ev.
Proof. unfold step. by intros ->. Qed.

Lemma step_gone cf st ev : page_gone (exiting st) = true → step cf st ev = st.
Proof. unfold step. by intros ->. Qed.

Lemma game_eta st :
  mkGame (grid st) (score st) (size st) (pending st) (msg_shown st) (msg_text st)
    (body_won st) (body_over st) (start_x st) (start_y st) (exiting st) (best_store st) (rng st) = st.
Proof. by destruct st. Qed.

Lemma check_status_inv st : game_inv (check_status st) ↔ game_inv st.
Proof. unfold check_status. by destruct (checkGameStatus _ _). Qed.

Lemma check_status_grid st :
  grid (check_status st) = grid st ∧ pending (check_status st) = pending st ∧
  score (check_status st) = score st.
Proof. unfold check_status. by destruct (checkGameStatus _ _). Qed.

(** [init()] on a 4x4 page: two tiles on an empty grid; everything but
    the grid and the random source is kept. *)
Lemma run_init_spec st :
  size st = 4%nat →
  board_ok 4 (grid (run_init st)) ∧ length (emptyCells 4 (grid (run_init st))) = 14%nat ∧
  set_best (best_store st) (set_board (grid st) (rng st) (run_init st)) = st ∧
  best_store (run_init st) = (update_best (score st) (best_store st)).1.
Proof.
  intros Hs. destruct (init_spec (size st) (rng st)) as (g1 & r1 & g & r & H1 & H2 & Hok & Hc & _);
    [lia|].
  unfold run_init. rewrite H1, H2. proj_simpl. rewrite Hs in Hok, Hc.
  split_and!; [done|lia|apply game_eta|done].
Qed.

Lemma run_init_inv st :
  size st = 4%nat → 0 <= score st → (start_x st = None ↔ start_y st = None) →
  game_inv (run_init st).
Proof.
  intros Hs Hsc Ht. destruct (run_init_spec st Hs) as (Hok' & _ & Heq & Hb).
  pose proof (f_equal size Heq) as E1. pose proof (f_equal score Heq) as E2.
  pose proof (f_equal start_x Heq) as E3. pose proof (f_equal start_y Heq) as E4.
  proj_simpl. rewrite E1, E2, E3, E4, Hb. split_and!; try done. by apply update_best_ge.
Qed.

(** A spawn with an empty cell left: one empty cell fewer. *)
Lemma spawn_one n g (r : Rng) :
  shaped n g → (0 < length (emptyCells n g))%nat →
  ∃ g' r', addRandomTile n g r = (Some g', r') ∧
    (length (emptyCells n g') + 1 = length (emptyCells n g))%nat.
Proof.
  intros Hg Hl. destruct (addRandomTile_cases n g r Hl) as (x & y & v & r' & Hin & Hv & ->).
  apply elem_of_emptyCells in Hin as (Hx & Hy & H0). simpl in *.
  exists (set_cell g x y v), r'. split; [done|]. apply emptyCells_set_cell; try done. lia.
Qed.

Lemma newGame_spec st :
  size st = 4%nat →
  board_ok 4 (grid (newGame st)) ∧ length (emptyCells 4 (grid (newGame st))) = 14%nat ∧
  size (newGame st) = 4%nat ∧ pending (newGame st) = pending st ∧ score (newGame st) = 0 ∧
  exiting (newGame st) = exiting st.
Proof.
  intros Hs. unfold newGame. destruct (run_init_spec (set_score 0 (hideMessage st)) Hs)
    as (Hok & Hc & Heq & _).
  split_and!; [done|done|..].
  - transitivity (size st); [exact (f_equal size Heq)|done].
  - exact (f_equal pending Heq).
  - exact (f_equal score Heq).
  - exact (f_equal exiting Heq).
Qed.

(** The timer with a spawn pending and an empty cell: one tile more. *)
Lemma timer_fire_spawn st :
  size st = 4%nat → shaped 4 (grid st) → pending st ≠ 0%nat →
  (0 < length (emptyCells 4 (grid st)))%nat →
  (length (emptyCells 4 (grid (timer_fire st))) + 1 = length (emptyCells 4 (grid st)))%nat ∧
  score (timer_fire st) = score st ∧ pending (timer_fire st) = pred (pending st).
Proof.
  intros Hs Hg Hp Hl. unfold timer_fire. destruct (pending st) as [|p]; [done|].
  proj_simpl. rewrite Hs.
  destruct (spawn_one 4 (grid st) (rng st) Hg Hl) as (g & r & -> & Hc).
  pose proof check_status_grid as Hcs.
  rewrite (proj1 (Hcs _)), (proj1 (proj2 (Hcs _))), (proj2 (proj2 (Hcs _))). done.
Qed.

Lemma check_status_msg st :
  msg_shown (check_status st) =
  msg_shown st || negb (bool_decide (checkGameStatus (size st) (grid st) = Playing)).
Proof.
  unfold check_status. destruct (checkGameStatus _ _); cbn; by rewrite ?orb_true_r, ?orb_false_r.
Qed.

(** The status check that follows the spawn. *)
Lemma timer_fire_msg st :
  size st = 4%nat → shaped 4 (grid st) → pending st ≠ 0%nat →
  (0 < length (emptyCells 4 (grid st)))%nat →
  msg_shown (timer_fire st) =
  msg_shown st || negb (bool_decide (checkGameStatus 4 (grid (timer_fire st)) = Playing)).
Proof.
  intros Hs Hg Hp Hl. unfold timer_fire. destruct (pending st) as [|p]; [done|].
  proj_simpl. rewrite Hs.
  destruct (spawn_one 4 (grid st) (rng st) Hg Hl) as (g & r & -> & _).
  rewrite check_status_msg, (proj1 (check_status_grid _)). by proj_simpl.
Qed.

Lemma handle_move_exiting d st : exiting (handle_move d st) = exiting st.
Proof. unfold handle_move. destruct (move _ _ _ _) as [[[] g] sc]; by proj_simpl. Qed.

(** What an accepted move leaves for its timer. *)
Lemma handle_move_accepted d st g s :
  move (size st) d (grid st) (score st) = (true, g, s) →
  grid (handle_move d st) = g ∧ score (handle_move d st) = s ∧
  pending (handle_move d st) = S (pending st) ∧ size (handle_move d st) = size st ∧
  msg_shown (handle_move d st) = msg_shown st.
Proof. intros E. unfold handle_move. rewrite E. proj_simpl. done. Qed.

Lemma handle_move_inv d st : game_inv st → game_inv (handle_move d st).
Proof.
  intros (Hs & Hok & Hsc & Ht & Hb). unfold handle_move.
  assert (Hsh : shaped (size st) (grid st)) by (rewrite Hs; apply Hok).
  destruct (move_ok (size st) d (grid st) (score st)) as [Hok' Hbd]; [by rewrite Hs|].
  destruct (move (size st) d (grid st) (score st)) as [[[] g] sc] eqn:E.
  - proj_simpl. rewrite Hs in *. split_and!; auto; [lia|]. apply update_best_ge. lia.
  - destruct (move_rejected _ _ _ _ _ _ Hsh E) as [_ ->]. proj_simpl. by split_and!.
Qed.

Lemma timer_fire_inv st : game_inv st → game_inv (timer_fire st).
Proof.
  intros Hi. unfold timer_fire. destruct (pending st) as [|p]; [done|].
  destruct Hi as (Hs & Hok & Hsc & Ht & Hb). cbv zeta.
  change (addRandomTile (size (set_pending p st)) (grid (set_pending p st)) (rng (set_pending p st)))
    with (addRandomTile (size st) (grid st) (rng st)).
  destruct (addRandomTile (size st) (grid st) (rng st)) as [[g|] r] eqn:Hadd;
    [apply check_status_inv|]; proj_simpl; split_and!; auto.
  rewrite Hs in Hadd. by eapply addRandomTile_ok.
Qed.

(** [exitGame] touches only the exit state and the message box. *)
Lemma exitGame_fields st :
  grid (exitGame st) = grid st ∧ score (exitGame st) = score st ∧ size (exitGame st) = size st ∧
  pending (exitGame st) = pending st ∧ start_x (exitGame st) = start_x st ∧
  start_y (exitGame st) = start_y st ∧ best_store (exitGame st) = best_store st ∧
  rng (exitGame st) = rng st ∧ exiting (exitGame st) = (exit_dialog (exiting st)).1.
Proof. unfold exitGame. destruct (exit_dialog (exiting st)) as [ex []]; by proj_simpl. Qed.

Lemma exitGame_inv st : game_inv st → game_inv (exitGame st).
Proof.
  destruct (exitGame_fields st) as (E1 & E2 & E3 & _ & E5 & E6 & E7 & _).
  unfold game_inv, best_ok. by rewrite E1, E2, E3, E5, E6, E7.
Qed.

Lemma run_action_inv a st : game_inv st → game_inv (run_action a st).
Proof.
  destruct a; cbn; [apply handle_move_inv| |apply exitGame_inv].
  intros (Hs & Hok & Hsc & Ht & _). unfold newGame, hideMessage.
  apply run_init_inv; proj_simpl; auto; lia.
Qed.

Lemma foldl_actions_inv acts st :
  game_inv st → game_inv (foldl (λ st a, run_action a st) st acts).
Proof.
  revert st. induction acts as [|a acts IH]; intros st Hi; [done|]. cbn.
  by apply IH, run_action_inv.
Qed.

Lemma step_inv cf st ev : game_inv st → game_inv (step cf st ev).
Proof.
  intros Hi. unfold step. destruct (page_gone (exiting st)); [done|].
  destruct ev as [k c| | | |x y|x y| |]; cbn [dispatch].
  - by apply foldl_actions_inv.
  - by apply (run_action_inv ANewGame).
  - by apply exitGame_inv.
  - by apply (run_action_inv ANewGame).
  - destruct Hi as (? & ? & ? & _ & ?). unfold game_inv, best_ok in *. cbn.
    split_and!; auto. naive_solver.
  - destruct (start_x st) as [sx|], (start_y st) as [sy|]; try done.
    destruct (_ || _); [done|].
    destruct (handle_move_inv (swipe_direction sx sy x y) st Hi) as (? & ? & ? & _ & ?).
    unfold game_inv, best_ok, set_touch in *. cbn [grid score size start_x start_y best_store].
    by split_and!.
  - by apply timer_fire_inv.
  - by proj_simpl.
Qed.

(** ** The stored best when it does not parse *)

Lemma check_status_best st : best_store (check_status st) = best_store st.
Proof. unfold check_status. by destruct (checkGameStatus _ _). Qed.

Lemma run_init_best st :
  parseInt (stored_or_zero (best_store st)) = None → best_store (run_init st) = best_store st.
Proof.
  intros Hn. unfold run_init. repeat case_match; proj_simpl; try done.
  by rewrite update_best_nan.
Qed.

Lemma handle_move_best d st :
  parseInt (stored_or_zero (best_store st)) = None → best_store (handle_move d st) = best_store st.
Proof.
  intros Hn. unfold handle_move.
  destruct (move _ _ _ _) as [[[] g] sc]; proj_simpl; [by rewrite update_best_nan|done].
Qed.

Lemma timer_fire_best st : best_store (timer_fire st) = best_store st.
Proof.
  unfold timer_fire. destruct (pending st) as [|p]; [done|]. cbv zeta.
  destruct (addRandomTile _ _ _) as [[g|] r]; [rewrite check_status_best|]; done.
Qed.

Lemma run_action_best a st :
  parseInt (stored_or_zero (best_store st)) = None → best_store (run_action a st) = best_store st.
Proof.
  intros Hn. destruct a; cbn [run_action]; [by apply handle_move_best| |apply exitGame_fields].
  unfold newGame. by rewrite run_init_best.
Qed.

Lemma step_best cf st ev :
  parseInt (stored_or_zero (best_store st)) = None → best_store (step cf st ev) = best_store st.
Proof.
  intros Hn. unfold step. destruct (page_gone (exiting st)); [done|].
  destruct ev as [k c| | | |x y|x y| |]; cbn [dispatch].
  - generalize (key_actions cf k c). intros acts. revert st Hn.
    induction acts as [|a acts IH]; intros st Hn; [done|]. cbn [foldl].
    rewrite IH; [by apply run_action_best|]. by rewrite run_action_best.
  - by apply (run_action_best ANewGame).
  - apply exitGame_fields.
  - by apply (run_action_best ANewGame).
  - done.
  - destruct (start_x st), (start_y st); try done. destruct (_ || _); [done|].
    by apply handle_move_best.
  - apply timer_fire_best.
  - done.
Qed.

(** ** The exit state along a trace *)










End Lemmas.

(** Draws that put the two first tiles in opposite corners. *)
Definition draws0 : list Z := [9007199254740991; 0; 0; 0; 5; 5; 5; 5].

(** The page after the constructor and one [ArrowLeft]: the move is
    accepted and its spawn is still pending. *)
Definition after_left : game (list Z) :=
  step false (construct draws0 None [] (Some false)) (KeyDown "ArrowLeft" 37).

(** ** Claims about the page *)

(** C16: every state the page reaches from the constructor, by any
    sequence of events and any random draws, keeps the 4x4 board
    invariant (rows of four, every cell 0 or a power of two at least 2),
    a non-negative score, [startX] / [startY] set and cleared together,
    and a stored best score that, when it parses, is at least the
    score. *)
Theorem reachable_game_inv {Rng} `{RandomSource Rng} cf store0 (st : game Rng) :
  reachable cf store0 st → game_inv st.
Proof.
  induction 1 as [r|st ev _ IH]; [|by apply step_inv].
  by apply run_init_inv.
Qed.

Lemma reachable_game_inv_witness : reachable false None after_left ∧ game_inv after_left.
Proof.
  assert (Hr : reachable false None after_left) by (apply reach_step, reach_init).
  split; [done|exact (reachable_game_inv false None after_left Hr)].
Defined.

(** C17: the 150 ms spawn of a move survives [newGame()]: when a spawn
    is pending, New Game followed by the timer leaves a fresh game with
    three tiles (13 empty cells of 16) and score 0, not the two tiles
    that [init()] seeds. *)
Theorem newGame_leftover_spawn {Rng} `{RandomSource Rng} cf (st : game Rng) :
  size st = 4%nat → pending st ≠ 0%nat → page_gone (exiting st) = false →
  let st' := step cf (step cf st SoftLeftClick) TimerFire in
  length (emptyCells 4 (grid st')) = 13%nat ∧ score st' = 0 ∧ pending st' = pred (pending st).
Proof.
  intros Hs Hp Hl. destruct (newGame_spec st Hs) as ((Hg & _) & Hc & Hs' & Hp' & Hsc & He).
  rewrite (step_live cf st) by done. cbn [dispatch].
  rewrite (step_live cf (newGame st)) by (by rewrite He). cbn [dispatch].
  destruct (timer_fire_spawn (newGame st)) as (Hc' & -> & ->); [done|done|congruence|lia|].
  split_and!; [lia|done|congruence].
Qed.

Lemma newGame_leftover_spawn_witness :
  size after_left = 4%nat ∧ pending after_left = 1%nat ∧
  length (emptyCells 4 (grid (step false (step false after_left SoftLeftClick) TimerFire))) = 13%nat.
Proof.
  assert (Hs : size after_left = 4%nat) by (vm_compute; reflexivity).
  assert (Hp : pending after_left = 1%nat) by (vm_compute; reflexivity).
  assert (Hp' : pending after_left ≠ 0%nat) by (rewrite Hp; discriminate).
  assert (Hl : page_gone (exiting after_left) = false) by (vm_compute; reflexivity).
  split_and!; [done|done|].
  exact (proj1 (newGame_leftover_spawn false after_left Hs Hp' Hl)).
Defined.

(** C18: a move does not wait for the spawn of the move before it: the
    page reaches a state with two spawns pending and still only the two
    tiles of [init()], so two moves ran without a spawn between them. *)
Theorem moves_overtake_spawns :
  ∃ st : game (list Z), reachable false None st ∧ pending st = 2%nat ∧
    length (emptyCells 4 (grid st)) = 14%nat.
Proof.
  exists (step false after_left (KeyDown "ArrowRight" 39)).
  split; [apply reach_step, reach_step, reach_init|].
  split; vm_compute; reflexivity.
Qed.

(** C19: a rejected move changes nothing: when [move] reports that the
    grid did not change, the whole page state is as before (score,
    pending spawns, messages), in particular no spawn is scheduled. *)
Theorem rejected_move_noop {Rng} `{RandomSource Rng} d (st : game Rng) :
  shaped (size st) (grid st) → (move (size st) d (grid st) (score st)).1.1 = false →
  handle_move d st = st.
Proof.
  intros Hg Hm. unfold handle_move.
  destruct (move (size st) d (grid st) (score st)) as [[m g] sc] eqn:E. cbn in Hm. subst m.
  destruct (move_rejected _ _ _ _ _ _ Hg E) as [-> ->]. apply game_eta.
Qed.

Lemma rejected_move_noop_witness :
  shaped (size after_left) (grid after_left) ∧
  (move (size after_left) Left (grid after_left) (score after_left)).1.1 = false ∧
  handle_move Left after_left = after_left.
Proof.
  assert (H1 : shaped (size after_left) (grid after_left)) by decide_by_eval.
  assert (H2 : (move (size after_left) Left (grid after_left) (score after_left)).1.1 = false)
    by (vm_compute; reflexivity).
  split_and!; [done|done|exact (rejected_move_noop Left after_left H1 H2)].
Defined.

(** C20: a tap is a swipe down: a touch that ends where it started
    (away from coordinate 0) runs [move('down')], since
    [Math.abs(diffX) > Math.abs(diffY)] fails and [diffY > 0] fails. *)
Theorem tap_moves_down {Rng} `{RandomSource Rng} cf (st : game Rng) x y :
  x ≠ 0 → y ≠ 0 → page_gone (exiting st) = false →
  step cf (step cf st (TouchStart x y)) (TouchEnd x y) =
  set_touch None None (handle_move Down (set_touch (Some x) (Some y) st)).
Proof.
  intros Hx Hy Hl. rewrite (step_live cf st) by done. cbn [dispatch].
  rewrite step_live by done. cbn [dispatch start_x start_y set_touch falsy].
  rewrite (proj2 (Z.eqb_neq x 0) Hx), (proj2 (Z.eqb_neq y 0) Hy). cbn [orb].
  unfold swipe_direction. rewrite !Z.sub_diag. done.
Qed.

Lemma tap_moves_down_witness :
  (10 : Z) ≠ 0 ∧ page_gone (exiting after_left) = false ∧
  grid (step false (step false after_left (TouchStart 10 10)) (TouchEnd 10 10)) =
  grid (handle_move Down after_left).
Proof.
  assert (Hl : page_gone (exiting after_left) = false) by (vm_compute; reflexivity).
  split_and!; [lia|done|]. rewrite (tap_moves_down false after_left 10 10) by (done || lia).
  vm_compute. reflexivity.
Defined.

(** C21: a swipe that starts on coordinate 0 of either axis is dropped:
    [!startX || !startY] treats 0 as unset, so the touchend changes
    nothing. *)
Theorem touch_at_zero_ignored {Rng} `{RandomSource Rng} cf (st : game Rng) x y ex ey :
  x = 0 ∨ y = 0 →
  step cf (step cf st (TouchStart x y)) (TouchEnd ex ey) = step cf st (TouchStart x y).
Proof.
  intros Hz. unfold step at 2 3. destruct (page_gone (exiting st)) eqn:E; [by rewrite step_gone|].
  cbn [dispatch]. rewrite step_live by done.
  destruct Hz as [-> | ->]; cbn; [done|]. by rewrite orb_true_r.
Qed.

Lemma touch_at_zero_ignored_witness :
  ((0 : Z) = 0 ∨ (120 : Z) = 0) ∧
  step false (step false after_left (TouchStart 0 120)) (TouchEnd 0 300) =
  step false after_left (TouchStart 0 120).
Proof.
  assert (Hz : (0 : Z) = 0 ∨ (120 : Z) = 0) by (left; reflexivity).
  split; [done|exact (touch_at_zero_ignored false after_left 0 120 0 300 Hz)].
Defined.

(** C22: on a CloudFone device cancelling Escape does not cancel the
    exit: Escape reaches both the [optimizeForCloudFone] listener
    ([keyCode === 27]) and the game's own ([e.key === 'Escape']), so a
    user who answers Cancel and then OK (where [window.close] is
    undefined) sees two dialogs and ends with "Thanks for playing!" and
    the navigation pending; on any other device the Cancel is final. *)
Theorem escape_cancel_still_exits {Rng} `{RandomSource Rng} (st : game Rng) rest :
  page_gone (exiting st) = false → answers (exiting st) = false :: true :: rest →
  window_close (exiting st) = None →
  let st1 := step true st (KeyDown "Escape" 27) in
  let st2 := step false st (KeyDown "Escape" 27) in
  prompts (exiting st1) = S (S (prompts (exiting st))) ∧ msg_text st1 = "Thanks for playing!" ∧
  exit_timers (exiting st1) = S (exit_timers (exiting st)) ∧
  prompts (exiting st2) = S (prompts (exiting st)) ∧ msg_text st2 = msg_text st ∧
  exit_timers (exiting st2) = exit_timers (exiting st).
Proof.
  intros Hl Ha Hw. cbn zeta. rewrite !step_live by done. cbn [dispatch].
  unfold key_actions. cbn. unfold exitGame, exit_dialog, confirm. rewrite Ha. cbn. by rewrite Hw.
Qed.

(** A page whose user answers Cancel, then OK, where [window.close] is
    undefined. *)
Definition hesitant_page : game (list Z) := construct draws0 None [false; true] None.

Lemma escape_cancel_still_exits_witness :
  page_gone (exiting hesitant_page) = false ∧ answers (exiting hesitant_page) = [false; true] ∧
  window_close (exiting hesitant_page) = None ∧
  msg_text (step true hesitant_page (KeyDown "Escape" 27)) = "Thanks for playing!".
Proof.
  assert (Hl : page_gone (exiting hesitant_page) = false) by (vm_compute; reflexivity).
  assert (Ha : answers (exiting hesitant_page) = [false; true]) by (vm_compute; reflexivity).
  assert (Hw : window_close (exiting hesitant_page) = None) by (vm_compute; reflexivity).
  split_and!; [done|done|done|].
  exact (proj1 (proj2 (escape_cancel_still_exits hesitant_page [] Hl Ha Hw))).
Defined.

(** C25: a stored best that [parseInt] reads as [NaN] is never
    repaired: when [localStorage] holds a value with no leading digits
    at load (e.g. ["abc"]), every state the page reaches keeps exactly
    that value, since [this.score > NaN] is always false. *)
Theorem corrupt_best_kept {Rng} `{RandomSource Rng} cf store0 (st : game Rng) :
  parseInt (stored_or_zero store0) = None → reachable cf store0 st → best_store st = store0.
Proof.
  intros Hn. induction 1 as [r|st ev _ IH]; [by apply run_init_best|].
  rewrite step_best; [done|]. by rewrite IH.
Qed.

Lemma corrupt_best_kept_witness :
  parseInt (stored_or_zero (Some "abc")) = None ∧
  reachable false (Some "abc") (step false (construct draws0 (Some "abc") [] (Some false)) (KeyDown "ArrowLeft" 37)) ∧
  best_store (step false (construct draws0 (Some "abc") [] (Some false)) (KeyDown "ArrowLeft" 37)) = Some "abc".
Proof.
  assert (Hn : parseInt (stored_or_zero (Some "abc")) = None) by reflexivity.
  assert (Hr : reachable false (Some "abc")
                 (step false (construct draws0 (Some "abc") [] (Some false)) (KeyDown "ArrowLeft" 37)))
    by (apply reach_step, reach_init).
  split_and!; [done|done|exact (corrupt_best_kept false _ _ Hn Hr)].
Defined.

(** C27: the spec's move step, when no other event comes between: an
    accepted move followed by its 150 ms callback adds exactly one tile
    (one empty cell fewer), keeps the score of the move, leaves no
    spawn pending, and then shows "You Win!" / "Game Over!" exactly when
    [checkGameStatus] of the new grid is not [Playing]. *)
Theorem move_then_spawn {Rng} `{RandomSource Rng} cf d (st : game Rng) :
  game_inv st → pending st = 0%nat → (move (size st) d (grid st) (score st)).1.1 = true →
  page_gone (exiting st) = false →
  let st1 := handle_move d st in
  let st2 := step cf st1 TimerFire in
  (length (emptyCells 4 (grid st2)) + 1 = length (emptyCells 4 (grid st1)))%nat ∧
  score st2 = score st1 ∧ pending st2 = 0%nat ∧
  msg_shown st2 = msg_shown st || negb (bool_decide (checkGameStatus 4 (grid st2) = Playing)).
Proof.
  intros (Hs & Hok & _) Hp Hm Hlive. cbn zeta.
  rewrite step_live by (by rewrite handle_move_exiting). cbn [dispatch].
  pose proof (move_accepted_zero (size st) d (grid st) (score st)) as Hz.
  destruct (move (size st) d (grid st) (score st)) as [[m g] s] eqn:E. cbn in Hm. subst m.
  destruct (Hz ltac:(rewrite Hs; apply Hok) eq_refl) as (i & j & Hi & Hj & H0). cbn in H0.
  destruct (handle_move_accepted d st g s E) as (Hg & Hsc & Hp1 & Hs1 & Hmsg).
  assert (Hgs : shaped 4 g).
  { pose proof (move_ok (size st) d (grid st) (score st)) as Hmo. rewrite E, Hs in Hmo.
    destruct (Hmo Hok) as [[Hgs _] _]. exact Hgs. }
  assert (Hl : (0 < length (emptyCells 4 (grid (handle_move d st))))%nat).
  { rewrite Hg. assert (Hin : (i, j) ∈ emptyCells 4 g)
      by (apply elem_of_emptyCells; simpl; rewrite Hs in Hi, Hj; done).
    destruct (emptyCells 4 g); [by apply elem_of_nil in Hin|simpl; lia]. }
  assert (Hs1' : size (handle_move d st) = 4%nat) by congruence.
  assert (Hp' : pending (handle_move d st) ≠ 0%nat) by congruence.
  destruct (timer_fire_spawn (handle_move d st)) as (Hc & -> & ->); [done|by rewrite Hg|done|done|].
  rewrite timer_fire_msg; [|done|by rewrite Hg|done|done].
  rewrite Hmsg, Hp1, Hp. split_and!; done.
Qed.

Lemma move_then_spawn_witness :
  game_inv (construct draws0 None [] (Some false)) ∧ pending (construct draws0 None [] (Some false)) = 0%nat ∧
  (move 4 Left (grid (construct draws0 None [] (Some false))) 0).1.1 = true ∧
  length (emptyCells 4 (grid (step false (handle_move Left (construct draws0 None [] (Some false))) TimerFire))) = 13%nat.
Proof.
  assert (Hi : game_inv (construct draws0 None [] (Some false))) by (apply run_init_inv; cbn; (done || lia || tauto)).
  assert (Hp : pending (construct draws0 None [] (Some false)) = 0%nat) by (vm_compute; reflexivity).
  assert (Hm : (move (size (construct draws0 None [] (Some false))) Left (grid (construct draws0 None [] (Some false)))
                  (score (construct draws0 None [] (Some false)))).1.1 = true) by (vm_compute; reflexivity).
  assert (Hl : page_gone (exiting (construct draws0 None [] (Some false))) = false)
    by (vm_compute; reflexivity).
  destruct (move_then_spawn false Left _ Hi Hp Hm Hl) as (Hc & _).
  split_and!; [done|done|vm_compute; reflexivity|].
  assert (H14 : length (emptyCells 4 (grid (handle_move Left (construct draws0 None [] (Some false))))) = 14%nat)
    by (vm_compute; reflexivity).
  lia.
Defined.

(** C29: Exit does nothing when the browser refuses [window.close()]:
    [window.close] is defined in every browser, so the fallback never
    runs, and a browser that does not let the script close the window
    (one the script did not open) leaves the page, the grid and the
    message box as they were; only the dialog was shown. *)
Theorem exit_close_refused {Rng} `{RandomSource Rng} (st : game Rng) rest :
  answers (exiting st) = true :: rest → window_close (exiting st) = Some false →
  exitGame st =
  set_exit (mkExit (S (prompts (exiting st))) rest (Some false) (exit_timers (exiting st))
              (page_gone (exiting st))) st.
Proof.
  intros Ha Hw. unfold exitGame, exit_dialog, confirm. rewrite Ha. cbn [window_close].
  rewrite Hw. cbn -[set_exit]. by rewrite orb_false_r.
Qed.

(** A page whose user confirms the first exit dialog, on a browser that
    ignores [window.close()]. *)
Definition refusing_page : game (list Z) := construct draws0 None [true] (Some false).

Lemma exit_close_refused_witness :
  answers (exiting refusing_page) = [true] ∧ window_close (exiting refusing_page) = Some false ∧
  page_gone (exiting (exitGame refusing_page)) = false ∧ msg_shown (exitGame refusing_page) = false.
Proof.
  assert (Ha : answers (exiting refusing_page) = [true]) by (vm_compute; reflexivity).
  assert (Hw : window_close (exiting refusing_page) = Some false) by (vm_compute; reflexivity).
  rewrite (exit_close_refused refusing_page [] Ha Hw).
  split_and!; [done|done|vm_compute; reflexivity|vm_compute; reflexivity].
Defined.





End Game.
